(** * MiIni: a shallow embedding of the INI reader/writer of MUtilize

    The development follows [MiIni.h]: the [std::basic_string] operations
    the parser uses, [std::map] as a key-ordered association list, the
    line loop of [readMore], the serializer [write], and the file binding
    ([open], [sync], [close]) over an explicit file system. *)

From Stdlib Require Import String Ascii List NArith Arith Lia Bool.
From Stdlib Require Import DecimalString OrdersEx Sorted RelationClasses.
Import ListNotations.

Local Open Scope string_scope.

(** ** Characters that cannot be written inside a string literal *)

Definition LF : ascii := "010"%char.
Definition TAB : ascii := "009"%char.
Definition DQUOTE : ascii := "034"%char.

(** [std::endl] and ["\n"] both put a line feed on the stream. *)
Definition endl : string := String LF "".

(** ** std::basic_string *)

Module StdString.

(** A value of type [size_t] produced by the [find] family: [Some i] is
    the index [i]; [None] is [String::npos], i.e. [size_t(-1)]. A string
    is always shorter than [npos], so an index never equals [npos]. *)
Definition size_pos := option nat.

(** [p + 1] on [size_t]: [npos + 1] wraps around to [0]. *)
Definition pos_succ (p : size_pos) : nat :=
  match p with
  | Some i => S i
  | None => 0
  end.

(** [p - 1] on [size_t], used as a character count: [0 - 1] wraps
    around to [npos]; [npos - 1] still exceeds the length of any string,
    so as a count it means "up to the end", like [npos]. *)
Definition pos_pred (p : size_pos) : size_pos :=
  match p with
  | Some (S i) => Some i
  | Some 0 => None
  | None => None
  end.

Fixpoint take (n : nat) (s : string) : string :=
  match n, s with
  | S n', String c r => String c (take n' r)
  | _, _ => ""
  end.

Fixpoint drop (n : nat) (s : string) : string :=
  match n, s with
  | S n', String _ r => drop n' r
  | _, _ => s
  end.

(** [c] occurs in the character set [set]. *)
Fixpoint mem (c : ascii) (set : string) : bool :=
  match set with
  | "" => false
  | String d r => Ascii.eqb c d || mem c r
  end.

(** [s.find_first_of(ch)] *)
Fixpoint find_first_of (s : string) (ch : ascii) : size_pos :=
  match s with
  | "" => None
  | String c r =>
      if Ascii.eqb c ch then Some 0
      else option_map S (find_first_of r ch)
  end.

(** [s.find_first_not_of(set)] *)
Fixpoint find_first_not_of (s set : string) : size_pos :=
  match s with
  | "" => None
  | String c r =>
      if mem c set then option_map S (find_first_not_of r set)
      else Some 0
  end.

(** [s.find_last_not_of(set)] *)
Fixpoint find_last_not_of (s set : string) : size_pos :=
  match s with
  | "" => None
  | String c r =>
      match find_last_not_of r set with
      | Some i => Some (S i)
      | None => if mem c set then None else Some 0
      end
  end.

(** [s.erase(pos, count)]; requires [pos <= length s] (the library
    throws [std::out_of_range] otherwise; every call of the parser is in
    range, see [pos_succ_find_last_not_of_le] and [find_first_of_lt]). *)
Definition erase (s : string) (pos : nat) (count : size_pos) : string :=
  take pos s ++
  match count with
  | Some n => drop (pos + n) s
  | None => ""
  end.

(** [s.substr(pos, count)]; requires [pos <= length s]. *)
Definition substr (s : string) (pos : nat) (count : size_pos) : string :=
  match count with
  | Some n => take n (drop pos s)
  | None => drop pos s
  end.

(** [s[0]] of a non-empty string. *)
Definition front (s : string) : option ascii :=
  match s with
  | "" => None
  | String c _ => Some c
  end.

End StdString.

(** ** std::map<String, V>: an association list kept in ascending key order *)

Module StdMap.

Abbreviation t V := (list (string * V)) (only parsing).

(** [std::less<String>]: lexicographic comparison of the characters as
    unsigned values, a proper prefix being smaller. *)
Definition key_lt (a b : string) : Prop := String.compare a b = Lt.

(** [m.find(k)], as the mapped value or [None] for [m.end()]. *)
Fixpoint find {V} (k : string) (m : t V) : option V :=
  match m with
  | [] => None
  | (k', v) :: r => if String.eqb k k' then Some v else find k r
  end.

(** Access through the reference [m[k]]: the mapped value is created
    from [d] when [k] is absent, then [f] is applied to it. *)
Fixpoint upd {V} (k : string) (f : V -> V) (d : V) (m : t V) : t V :=
  match m with
  | [] => [(k, f d)]
  | (k', v) :: r =>
      match String.compare k k' with
      | Lt => (k, f d) :: m
      | Eq => (k', f v) :: r
      | Gt => (k', v) :: upd k f d r
      end
  end.

(** [m[k];] *)
Definition subscript {V} (k : string) (d : V) (m : t V) : t V :=
  upd k (fun v => v) d m.

(** [m[k] = v;] *)
Definition assign {V} (k : string) (v : V) (m : t V) : t V :=
  upd k (fun _ => v) v m.

(** [m.insert(std::make_pair(k, v))]: no effect when [k] is present. *)
Definition insert {V} (k : string) (v : V) (m : t V) : t V :=
  upd k (fun old => old) v m.

Definition keys {V} (m : t V) : list string := map fst m.

(** The keys are strictly ascending, as in every [std::map]. *)
Definition ok {V} (m : t V) : Prop := StronglySorted key_lt (keys m).

End StdMap.

Import StdString.

(** ** The data of a MiIni *)

(** The template parameter [_StringT] is [std::string]: [String] is [string]. *)
Abbreviation KeyValMap := (StdMap.t string) (only parsing).
Abbreviation DataMap := (StdMap.t KeyValMap) (only parsing).

Record MiIni := mkMiIni {
  mFilename : string;
  mAutoSync : bool;
  dataMap : DataMap
}.

(** Dynamic type and content of a thrown exception. [FileError] and
    [FormatException] derive from [std::runtime_error]. *)
Inductive Exception :=
| runtime_error (what : string)
| FileError (what : string)
| FormatException (what : string) (line : N).

Inductive Outcome :=
| Returned
| Threw (e : Exception).

(** ** size_t line counter *)


(** [line++] on a 64-bit [size_t]. *)
Definition size_incr (n : N) : N := ((n + 1) mod 2 ^ 64)%N.

(** [stream << n] for an unsigned integer. *)
Definition show_size (n : N) : string := NilZero.string_of_uint (N.to_uint n).

(** ** Accessors *)

Definition MiIni_new : MiIni := mkMiIni "" false [].

Definition filename (m : MiIni) : string := mFilename m.
Definition autoSyncEnabled (m : MiIni) : bool := mAutoSync m.

Definition setFilename (f : string) (m : MiIni) : MiIni :=
  mkMiIni f (mAutoSync m) (dataMap m).

Definition enableAutoSync (enable : bool) (m : MiIni) : MiIni :=
  mkMiIni (mFilename m) enable (dataMap m).

(** [getStr]: the new content of [dataMap] and the returned string. *)
Definition getStr (sect key def : string) (dm : DataMap) : DataMap * string :=
  let dm1 := StdMap.subscript sect [] dm in
  let keyvalmap := match StdMap.find sect dm1 with
                   | Some kv => kv
                   | None => []
                   end in
  match StdMap.find key keyvalmap with
  | None => (StdMap.upd sect (StdMap.insert key def) [] dm1, def)
  | Some v => (dm1, v)
  end.

Definition setStr (sect key val : string) (dm : DataMap) : DataMap :=
  StdMap.upd sect (StdMap.assign key val) [] dm.

Definition exists_ (sect key : string) (dm : DataMap) : bool :=
  match StdMap.find sect dm with
  | Some kv => match StdMap.find key kv with
               | Some _ => true
               | None => false
               end
  | None => false
  end.

(** ** Input streams and std::getline *)

Definition InputStream := string.
Definition OutputStream := string.

(** [std::getline(is, ln)]: [None] when no character could be extracted
    (the stream is at its end, the loop condition is false); otherwise the
    line without its terminating line feed, and the rest of the stream. *)
Fixpoint getline_rest (is_ : InputStream) : string * InputStream :=
  match is_ with
  | "" => ("", "")
  | String c r =>
      if Ascii.eqb c LF then ("", r)
      else let '(ln, rest) := getline_rest r in (String c ln, rest)
  end.

Definition getline (is_ : InputStream) : option (string * InputStream) :=
  match is_ with
  | "" => None
  | _ => Some (getline_rest is_)
  end.

(** The lines that successive calls of [getline] deliver until it fails
    (see [getlines_getline]). *)
Fixpoint getlines (is_ : InputStream) : list string :=
  match is_ with
  | "" => []
  | String c r =>
      if Ascii.eqb c LF then "" :: getlines r
      else match getlines r with
           | [] => [String c ""]
           | ln :: lns => String c ln :: lns
           end
  end.

(** ** readMore *)

Definition spaces : string := String " " (String TAB "").

(** [s.erase(0, s.find_first_not_of(spaces))] *)
Definition erase_leading_spaces (s : string) : string :=
  erase s 0 (find_first_not_of s spaces).

(** [s.erase(s.find_last_not_of(spaces) + 1)] *)
Definition erase_trailing_spaces (s : string) : string :=
  erase s (pos_succ (find_last_not_of s spaces)) None.

(** Lines 168-172: the line with leading and trailing blanks erased and
    then cut at [commentPos + 1], the position after the first ['#']. *)
Definition strip (ln : string) : string :=
  let ln1 := erase_leading_spaces ln in
  let ln2 := erase_trailing_spaces ln1 in
  match find_first_of ln2 "#" with
  | Some commentPos => erase ln2 (commentPos + 1) None
  | None => ln2
  end.

(** The section name of a header line (lines 176-178). *)
Definition header_name (ln : string) : string :=
  let sect := substr ln 1 (pos_pred (find_first_of ln "]")) in
  erase_trailing_spaces (erase_leading_spaces sect).

(** The key and the value of an assignment line (lines 191-194). *)
Definition assignment_key (ln : string) (eqpos : nat) : string :=
  erase_trailing_spaces (substr ln 0 (Some eqpos)).

Definition assignment_val (ln : string) (eqpos : nat) : string :=
  erase_leading_spaces (substr ln (eqpos + 1) None).

Definition format_message (line : N) : string :=
  "Wrong ini file format at line " ++ show_size line ++ "!".

(** The local variables of [readMore] that live across iterations,
    together with [dataMap]. *)
Record ReadState := mkReadState {
  rs_sect : string;
  rs_line : N;
  rs_data : DataMap
}.

(** One iteration of the [while] loop, for the line [ln0] just read:
    the next state, or the state at the [throw] and the exception. *)
Definition readMore_body (ignoreErrors : bool) (ln0 : string) (st : ReadState)
  : ReadState * Outcome :=
  let line := size_incr (rs_line st) in
  let sect := rs_sect st in
  let dm := rs_data st in
  let ln := strip ln0 in
  if negb (Nat.eqb (String.length ln) 0) then
    if match front ln with Some c => Ascii.eqb c "[" | None => false end then
      let sect' := header_name ln in
      (mkReadState sect' line (StdMap.subscript sect' [] dm), Returned)
    else
      match find_first_of ln "=" with
      | None =>
          if negb ignoreErrors then
            (mkReadState sect line dm,
             Threw (FormatException (format_message line) line))
          else (mkReadState sect line dm, Returned)
      | Some eqpos =>
          let key := assignment_key ln eqpos in
          let val := assignment_val ln eqpos in
          (mkReadState sect line
             (StdMap.upd sect (StdMap.assign key val) [] dm), Returned)
      end
  else (mkReadState sect line dm, Returned).

(** The [while] loop over the lines delivered by [getline]. *)
Fixpoint readMore_loop (ignoreErrors : bool) (lns : list string)
  (st : ReadState) : ReadState * Outcome :=
  match lns with
  | [] => (st, Returned)
  | ln :: rest =>
      match readMore_body ignoreErrors ln st with
      | (st', Returned) => readMore_loop ignoreErrors rest st'
      | thrown => thrown
      end
  end.

(** [readMore(is, ignoreErrors)]: the content of [dataMap] when the call
    returns or throws, and which of the two happened. *)
Definition readMore (is_ : InputStream) (ignoreErrors : bool) (dm : DataMap)
  : DataMap * Outcome :=
  let '(st, out) :=
    readMore_loop ignoreErrors (getlines is_) (mkReadState "" 0 dm) in
  (rs_data st, out).

(** [read]: [dataMap.clear()], then [readMore]. *)
Definition read (is_ : InputStream) (ignoreErrors : bool) (dm : DataMap)
  : DataMap * Outcome :=
  readMore is_ ignoreErrors [].

(** ** write *)

Definition write_keyval (os : OutputStream) (keyval : string * string)
  : OutputStream :=
  os ++ fst keyval ++ " = " ++ snd keyval ++ endl.

Definition write_sect (os : OutputStream) (sect : string * KeyValMap)
  : OutputStream :=
  let os1 := if negb (String.eqb (fst sect) "")
             then os ++ "[" ++ fst sect ++ "]" ++ endl
             else os in
  let os2 := fold_left write_keyval (snd sect) os1 in
  os2 ++ endl.

(** [write(os)]: the stream after the call. *)
Definition write (os : OutputStream) (dm : DataMap) : OutputStream :=
  fold_left write_sect dm os.

(** ** File binding *)

(** The files the program can see: the content of those that can be
    opened for reading, and whether a path can be opened for writing. *)
Record FileSystem := mkFS {
  fs_content : string -> option string;
  fs_writable : string -> bool
}.

Definition fs_store (path : string) (text : string) (fs : FileSystem)
  : FileSystem :=
  mkFS (fun p => if String.eqb p path then Some text else fs_content fs p)
       (fs_writable fs).

(** [open]: links the file and reads it when it can be opened. *)
Definition open (filename : string) (autosync ignoreErrors : bool)
  (fs : FileSystem) (m : MiIni) : MiIni * Outcome :=
  match fs_content fs filename with
  | Some text =>
      let '(dm, out) := read text ignoreErrors (dataMap m) in
      (mkMiIni filename autosync dm, out)
  | None => (mkMiIni filename autosync (dataMap m), Returned)
  end.

Definition sync_message (mFilename : string) : string :=
  if negb (Nat.eqb (String.length mFilename) 0)
  then "Can't open ini file " ++ String DQUOTE "" ++ mFilename
       ++ String DQUOTE "" ++ "!"
  else "No linked file specified to be synced to this MinIni!".

(** [sync() const]: the file system after the call, and the outcome. *)
Definition sync (fs : FileSystem) (m : MiIni) : FileSystem * Outcome :=
  if fs_writable fs (mFilename m)
  then (fs_store (mFilename m) (write "" (dataMap m)) fs, Returned)
  else (fs, Threw (runtime_error (sync_message (mFilename m)))).

(** [close]: when [sync] throws, the statements after it do not run. *)
Definition close (fs : FileSystem) (m : MiIni)
  : FileSystem * MiIni * Outcome :=
  if negb (Nat.eqb (String.length (mFilename m)) 0) && mAutoSync m then
    match sync fs m with
    | (fs', Returned) => (fs', mkMiIni "" false [], Returned)
    | (fs', thrown) => (fs', m, thrown)
    end
  else (fs, mkMiIni "" false [], Returned).


(** ** Vocabulary of the statements *)

Fixpoint all_chars (p : ascii -> bool) (s : string) : bool :=
  match s with
  | "" => true
  | String c r => p c && all_chars p r
  end.

(** Space or tab, the two characters of [spaces]. *)
Definition blank (c : ascii) : bool := mem c spaces.

(** [s.back()] of a non-empty string. *)
Fixpoint back (s : string) : option ascii :=
  match s with
  | "" => None
  | String c "" => Some c
  | String _ r => back r
  end.

Fixpoint first_nonblank (s : string) : option ascii :=
  match s with
  | "" => None
  | String c r => if blank c then first_nonblank r else Some c
  end.

Definition nonblank_or_none (c : option ascii) : bool :=
  match c with
  | Some c => negb (blank c)
  | None => true
  end.

(** No leading and no trailing space or tab. *)
Definition no_edge_blank (s : string) : bool :=
  nonblank_or_none (front s) && nonblank_or_none (back s).

Definition is_not (ch : ascii) (c : ascii) : bool := negb (Ascii.eqb c ch).

(** None of ['#'], ['['], [']'], ['='] occurs. *)
Definition no_reserved (s : string) : bool :=
  all_chars (fun c => negb (mem c "#[]=")) s.

(** A name, key or value as the round-trip property of the
    specification restricts it. *)
Definition stated_plain (s : string) : bool :=
  no_reserved s && no_edge_blank s.

(** The same, and no line feed occurs either. *)
Definition plain (s : string) : bool :=
  stated_plain s && all_chars (is_not LF) s.

Definition map_all (p : string -> bool) (M : DataMap) : bool :=
  forallb (fun sect =>
             p (fst sect) &&
             forallb (fun kv => p (fst kv) && p (snd kv)) (snd sect)) M.

(** Both levels of a [std::map<String, std::map<String, String>>] are in
    strictly ascending key order. *)
Definition DataMap_ok (M : DataMap) : Prop :=
  StdMap.ok M /\ Forall (fun sect => StdMap.ok (snd sect)) M.

(** The value stored at [dataMap[sect][key]], if any. *)
Definition value_at (sect key : string) (dm : DataMap) : option string :=
  match StdMap.find sect dm with
  | Some kv => StdMap.find key kv
  | None => None
  end.

(** A sequence of [setStr] calls. *)
Definition insert_all (ops : list (string * string * string)) (dm : DataMap)
  : DataMap :=
  fold_left (fun dm op => setStr (fst (fst op)) (snd (fst op)) (snd op) dm)
            ops dm.

(** The text of one section and of a whole mapping, in list order. *)
Definition keyval_line (kv : string * string) : string :=
  fst kv ++ " = " ++ snd kv.

Definition header_line (name : string) : string := "[" ++ name ++ "]".

Definition sect_lines (sect : string * KeyValMap) : list string :=
  (if negb (String.eqb (fst sect) "") then [header_line (fst sect)] else [])
  ++ map keyval_line (snd sect) ++ [""].

Definition ini_lines (dm : DataMap) : list string :=
  flat_map sect_lines dm.

(** Every line followed by a line feed. *)
Definition unlines (lns : list string) : string :=
  String.concat "" (map (fun ln => ln ++ endl) lns).

(** What the branches of the loop body make of a line. *)
Inductive LineKind :=
| Blank
| Header (name : string)
| Assignment (key val : string)
| Malformed.

Definition classify (ln0 : string) : LineKind :=
  let ln := strip ln0 in
  if negb (Nat.eqb (String.length ln) 0) then
    if match front ln with Some c => Ascii.eqb c "[" | None => false end
    then Header (header_name ln)
    else match find_first_of ln "=" with
         | None => Malformed
         | Some eqpos =>
             Assignment (assignment_key ln eqpos) (assignment_val ln eqpos)
         end
  else Blank.


(** A line made of optional blanks, ['#'] and any text. *)
Definition comment_line (ln : string) : bool :=
  match first_nonblank ln with
  | Some c => Ascii.eqb c "#"
  | None => false
  end.

(** The value the last [setStr sect key _] of a sequence assigns. *)
Fixpoint last_set (sect key : string) (ops : list (string * string * string))
  : option string :=
  match ops with
  | [] => None
  | op :: r =>
      match last_set sect key r with
      | Some v => Some v
      | None =>
          if String.eqb (fst (fst op)) sect && String.eqb (snd (fst op)) key
          then Some (snd op)
          else None
      end
  end.

(** The order the specification states for the mapping: sections and
    keys stay where they were first inserted. *)
Module InsertionOrder.

Fixpoint set_key (key val : string) (kv : KeyValMap) : KeyValMap :=
  match kv with
  | [] => [(key, val)]
  | (k, v) :: r =>
      if String.eqb key k then (k, val) :: r
      else (k, v) :: set_key key val r
  end.

Fixpoint set (sect key val : string) (dm : DataMap) : DataMap :=
  match dm with
  | [] => [(sect, [(key, val)])]
  | (s, kv) :: r =>
      if String.eqb sect s then (s, set_key key val kv) :: r
      else (s, kv) :: set sect key val r
  end.

Definition insert_all (ops : list (string * string * string)) : DataMap :=
  fold_left (fun dm op => set (fst (fst op)) (snd (fst op)) (snd op) dm)
            ops [].

End InsertionOrder.

(** ** Example inputs *)

(** A file system on which no file can be opened. *)
Definition fs_none : FileSystem := mkFS (fun _ => None) (fun _ => false).

(** A file system on which every path can be opened for writing. *)
Definition fs_any : FileSystem := mkFS (fun _ => None) (fun _ => true).

(** A MiIni linked to a file, with auto-sync on and one stored value. *)
Definition m_linked : MiIni := mkMiIni "out.ini" true [("", [("k", "v")])].

(** Two sections, the one named ["b"] inserted first. *)
Definition ops_b_then_a : list (string * string * string) :=
  [("b", "k", "1"); ("a", "k", "2")].

(** A value that spans two lines, and a default section without keys. *)
Definition M_two_line_value : DataMap := [("", [("k", "a" ++ endl ++ "b")])].
Definition M_empty_default : DataMap := [("", [])].

(** ** Typed accessors, constructor and destructor *)

Section TypedAccess.

(** The template parameter [_T] with its two stream operators: [put val]
    is the text [ss.str()] after [ss << val]; [extract text] is the value
    of [ret] after [ss >> ret] on a stream holding [text] (since C++11 a
    failed extraction leaves a fixed value). *)
Context {T : Type} (put : T -> string) (extract : string -> T).

(** [get<_T>]: the new content of [dataMap] and the returned value. *)
Definition get (sect key : string) (def : T) (dm : DataMap) : DataMap * T :=
  let dm1 := StdMap.subscript sect [] dm in
  let keyvalmap := match StdMap.find sect dm1 with
                   | Some kv => kv
                   | None => []
                   end in
  match StdMap.find key keyvalmap with
  | None => (StdMap.upd sect (StdMap.insert key (put def)) [] dm1, def)
  | Some v => (dm1, extract v)
  end.

(** [set<_T>] *)
Definition set (sect key : string) (val : T) (dm : DataMap) : DataMap :=
  setStr sect key (put val) dm.

End TypedAccess.

(** [std::isspace] in the classic locale: space, and the control
    characters 9 to 13. *)
Definition isspace (c : ascii) : bool :=
  mem c (String " " (String TAB (String LF (String "011"
          (String "012" (String "013" "")))))).

(** [ss >> ret] for a [std::string]: leading white space is skipped, then
    the characters up to the next white space are stored; nothing is
    stored when the text holds no such character. *)
Fixpoint skipws (s : string) : string :=
  match s with
  | "" => ""
  | String c r => if isspace c then skipws r else s
  end.

Fixpoint word (s : string) : string :=
  match s with
  | "" => ""
  | String c r => if isspace c then "" else String c (word r)
  end.

Definition extract_string (s : string) : string := word (skipws s).

(** [ss << val] for a [std::string]. *)
Definition put_string (s : string) : string := s.

(** [MiIni(filename, autosync)]: [open] on the fresh object. *)
Definition MiIni_ctor (filename : string) (autosync : bool)
  (fs : FileSystem) : MiIni * Outcome :=
  open filename autosync false fs MiIni_new.

(** How a destructor ends: it is [noexcept], so an exception that leaves
    it ends the program through [std::terminate]. *)
Inductive DtorOutcome :=
| Destroyed
| Terminated (e : Exception).

(** [~MiIni()]: [close], with no way out for its exception. *)
Definition MiIni_dtor (fs : FileSystem) (m : MiIni)
  : FileSystem * MiIni * DtorOutcome :=
  match close fs m with
  | (fs', m', Returned) => (fs', m', Destroyed)
  | (fs', m', Threw e) => (fs', m', Terminated e)
  end.

(** * Properties *)

(** ** Strings *)

Lemma append_nil_r (s : string) : s ++ "" = s.
Proof. induction s; simpl; congruence. Qed.

Lemma append_assoc (a b c : string) : (a ++ b) ++ c = a ++ b ++ c.
Proof. induction a; simpl; congruence. Qed.

Lemma length_append (a b : string) :
  String.length (a ++ b) = String.length a + String.length b.
Proof. induction a; simpl; congruence. Qed.

Lemma take_length_app (a b : string) : take (String.length a) (a ++ b) = a.
Proof. induction a; simpl; [destruct b; reflexivity | congruence]. Qed.

Lemma drop_length_app (a b : string) : drop (String.length a) (a ++ b) = b.
Proof. induction a; simpl; auto. Qed.

Lemma take_all (s : string) : take (String.length s) s = s.
Proof. induction s; simpl; congruence. Qed.

Lemma find_first_of_lt (s : string) (ch : ascii) (i : nat) :
  find_first_of s ch = Some i -> i < String.length s.
Proof.
  revert i; induction s as [|c r IH]; simpl; intros i H; [discriminate|].
  destruct (Ascii.eqb c ch).
  - injection H as <-. lia.
  - destruct (find_first_of r ch) as [j|]; [|discriminate].
    injection H as <-. specialize (IH j eq_refl). lia.
Qed.

Lemma pos_succ_find_last_not_of_le (s set : string) :
  pos_succ (find_last_not_of s set) <= String.length s.
Proof.
  induction s as [|c r IH]; simpl; [lia|].
  destruct (find_last_not_of r set) as [i|]; simpl in *; [lia|].
  destruct (mem c set); simpl; lia.
Qed.

Lemma erase_leading_spaces_cons (c : ascii) (r : string) :
  erase_leading_spaces (String c r) =
  if blank c then erase_leading_spaces r else String c r.
Proof.
  unfold erase_leading_spaces, erase, blank. cbn [find_first_not_of].
  destruct (mem c spaces); [|reflexivity].
  destruct (find_first_not_of r spaces); reflexivity.
Qed.

Lemma find_last_not_of_nonempty (s set : string) (i : nat) :
  find_last_not_of s set = Some i -> take (S i) s <> "".
Proof. destruct s; simpl; [discriminate|]. intros _; discriminate. Qed.

Lemma erase_trailing_spaces_cons (c : ascii) (r : string) :
  erase_trailing_spaces (String c r) =
  match erase_trailing_spaces r with
  | "" => if blank c then "" else String c ""
  | t => String c t
  end.
Proof.
  unfold erase_trailing_spaces, erase, blank. cbn [find_last_not_of].
  destruct (find_last_not_of r spaces) as [i|] eqn:E.
  - simpl pos_succ. rewrite !append_nil_r.
    pose proof (find_last_not_of_nonempty _ _ _ E) as Hne.
    change (take (S (S i)) (String c r)) with (String c (take (S i) r)).
    destruct (take (S i) r); [congruence | reflexivity].
  - cbn [pos_succ take append]. destruct (mem c spaces); reflexivity.
Qed.

Lemma erase_leading_spaces_id (s : string) :
  nonblank_or_none (front s) = true -> erase_leading_spaces s = s.
Proof.
  destruct s as [|c r]; [reflexivity|]. simpl. intros H.
  rewrite erase_leading_spaces_cons.
  destruct (blank c); [discriminate | reflexivity].
Qed.

Lemma erase_leading_spaces_blank (a b : string) :
  all_chars blank a = true ->
  erase_leading_spaces (a ++ b) = erase_leading_spaces b.
Proof.
  induction a as [|c r IH]; simpl; intros H; [reflexivity|].
  apply andb_true_iff in H as [Hc Hr].
  rewrite erase_leading_spaces_cons, Hc. auto.
Qed.

Lemma front_erase_leading_spaces (s : string) :
  front (erase_leading_spaces s) = first_nonblank s.
Proof.
  induction s as [|c r IH]; [reflexivity|].
  rewrite erase_leading_spaces_cons. simpl.
  destruct (blank c); [assumption | reflexivity].
Qed.

Lemma erase_trailing_spaces_id (s : string) :
  nonblank_or_none (back s) = true -> erase_trailing_spaces s = s.
Proof.
  induction s as [|c r IH]; [reflexivity|]. intros H.
  rewrite erase_trailing_spaces_cons.
  destruct r as [|d r'].
  - simpl in *. destruct (blank c); [discriminate | reflexivity].
  - rewrite IH by exact H. reflexivity.
Qed.

Lemma erase_trailing_spaces_app (a b : string) :
  erase_trailing_spaces b <> "" ->
  erase_trailing_spaces (a ++ b) = a ++ erase_trailing_spaces b.
Proof.
  intros Hb. induction a as [|c r IH]; [reflexivity|].
  simpl. rewrite erase_trailing_spaces_cons, IH.
  destruct (r ++ erase_trailing_spaces b) eqn:E; [|reflexivity].
  destruct r; simpl in E; [contradiction | discriminate].
Qed.

Lemma erase_trailing_spaces_all_blank (b : string) :
  all_chars blank b = true -> erase_trailing_spaces b = "".
Proof.
  induction b as [|c r IH]; [reflexivity|]. simpl. intros H.
  apply andb_true_iff in H as [Hc Hr].
  rewrite erase_trailing_spaces_cons, IH, Hc by assumption. reflexivity.
Qed.

Lemma erase_trailing_spaces_blank (a b : string) :
  all_chars blank b = true ->
  erase_trailing_spaces (a ++ b) = erase_trailing_spaces a.
Proof.
  intros Hb. induction a as [|c r IH]; simpl.
  - now apply erase_trailing_spaces_all_blank.
  - rewrite !erase_trailing_spaces_cons, IH. reflexivity.
Qed.

Lemma front_erase_trailing_spaces (s : string) (c : ascii) :
  front s = Some c -> blank c = false ->
  front (erase_trailing_spaces s) = Some c.
Proof.
  destruct s as [|d r]; simpl; [discriminate|].
  intros [= ->] Hc. rewrite erase_trailing_spaces_cons, Hc.
  destruct (erase_trailing_spaces r); reflexivity.
Qed.

Lemma all_chars_app (p : ascii -> bool) (a b : string) :
  all_chars p (a ++ b) = all_chars p a && all_chars p b.
Proof.
  induction a as [|c r IH]; simpl; [reflexivity|].
  rewrite IH. apply andb_assoc.
Qed.

Lemma all_chars_take (p : ascii -> bool) (n : nat) (s : string) :
  all_chars p s = true -> all_chars p (take n s) = true.
Proof.
  revert n; induction s as [|c r IH]; intros [|n]; simpl; auto.
  intros H. apply andb_true_iff in H as [-> Hr]. simpl. auto.
Qed.

Lemma all_chars_drop (p : ascii -> bool) (n : nat) (s : string) :
  all_chars p s = true -> all_chars p (drop n s) = true.
Proof.
  revert n; induction s as [|c r IH]; intros [|n]; simpl; auto.
  intros H. apply andb_true_iff in H as [_ Hr]. auto.
Qed.

Lemma all_chars_erase (p : ascii -> bool) (s : string) (pos : nat)
  (count : size_pos) :
  all_chars p s = true -> all_chars p (erase s pos count) = true.
Proof.
  intros H. unfold erase. rewrite all_chars_app, all_chars_take by assumption.
  destruct count; simpl; auto using all_chars_drop.
Qed.


Lemma all_chars_impl (p q : ascii -> bool) (s : string) :
  (forall c, p c = true -> q c = true) ->
  all_chars p s = true -> all_chars q s = true.
Proof.
  intros Hpq. induction s as [|c r IH]; simpl; auto.
  intros H. apply andb_true_iff in H as [Hc Hr].
  rewrite (Hpq _ Hc). simpl. auto.
Qed.

Lemma find_first_of_none (s : string) (ch : ascii) :
  all_chars (is_not ch) s = true -> find_first_of s ch = None.
Proof.
  induction s as [|c r IH]; simpl; [reflexivity|]. unfold is_not at 1.
  intros H. apply andb_true_iff in H as [Hc Hr].
  apply negb_true_iff in Hc. rewrite Hc, IH by assumption. reflexivity.
Qed.

Lemma find_first_of_app (a b : string) (ch : ascii) :
  all_chars (is_not ch) a = true ->
  find_first_of (a ++ String ch b) ch = Some (String.length a).
Proof.
  induction a as [|c r IH]; simpl.
  - rewrite Ascii.eqb_refl. reflexivity.
  - unfold is_not at 1. intros H. apply andb_true_iff in H as [Hc Hr].
    apply negb_true_iff in Hc. rewrite Hc, IH by assumption. reflexivity.
Qed.

(** ** Lines of a stream *)

Lemma getlines_getline (is_ : InputStream) :
  getlines is_ =
  match getline is_ with
  | None => []
  | Some (ln, rest) => ln :: getlines rest
  end.
Proof.
  induction is_ as [|c r IH]; [reflexivity|].
  unfold getline. cbn [getlines getline_rest].
  destruct (Ascii.eqb c LF); [reflexivity|].
  rewrite IH. unfold getline.
  destruct r as [|d r']; [reflexivity|].
  destruct (getline_rest (String d r')). reflexivity.
Qed.

Lemma getlines_line (ln rest : string) :
  all_chars (is_not LF) ln = true ->
  getlines (ln ++ endl ++ rest) = ln :: getlines rest.
Proof.
  induction ln as [|c r IH]; simpl.
  - reflexivity.
  - unfold is_not at 1. intros H. apply andb_true_iff in H as [Hc Hr].
    apply negb_true_iff in Hc. rewrite Hc. simpl in IH. rewrite IH by assumption.
    reflexivity.
Qed.

Lemma unlines_cons (ln : string) (lns : list string) :
  unlines (ln :: lns) = ln ++ endl ++ unlines lns.
Proof.
  unfold unlines. simpl.
  destruct (map (fun ln0 => ln0 ++ endl) lns) eqn:E.
  - reflexivity.
  - cbn [String.concat]. simpl. rewrite append_assoc. reflexivity.
Qed.

Lemma getlines_unlines (lns : list string) :
  Forall (fun ln => all_chars (is_not LF) ln = true) lns ->
  getlines (unlines lns) = lns.
Proof.
  induction 1 as [|ln lns Hln _ IH]; [reflexivity|].
  rewrite unlines_cons, getlines_line, IH by assumption. reflexivity.
Qed.

(** ** The key order of std::map *)

Lemma compare_refl (s : string) : String.compare s s = Eq.
Proof.
  pose proof (String.compare_antisym s s) as H.
  destruct (String.compare s s); simpl in H; congruence.
Qed.

Lemma compare_OT (a b : string) :
  String.compare a b = String_as_OT.compare a b.
Proof.
  revert b; induction a as [|c r IH]; intros [|d r']; simpl; auto.
Qed.

Lemma key_lt_trans (a b c : string) :
  StdMap.key_lt a b -> StdMap.key_lt b c -> StdMap.key_lt a c.
Proof.
  unfold StdMap.key_lt. rewrite !compare_OT.
  apply String_as_OT.lt_strorder.
Qed.

Lemma key_lt_irrefl (a : string) : ~ StdMap.key_lt a a.
Proof. unfold StdMap.key_lt. rewrite compare_refl. discriminate. Qed.

Lemma key_lt_gt (a b : string) :
  StdMap.key_lt a b -> String.compare b a = Gt.
Proof.
  unfold StdMap.key_lt. intros H.
  rewrite String.compare_antisym, H. reflexivity.
Qed.

Lemma gt_key_lt (a b : string) :
  String.compare b a = Gt -> StdMap.key_lt a b.
Proof.
  unfold StdMap.key_lt. intros H.
  rewrite String.compare_antisym, H. reflexivity.
Qed.

Lemma key_lt_neq (a b : string) : StdMap.key_lt a b -> String.eqb b a = false.
Proof.
  intros H. apply String.eqb_neq. intros ->. exact (key_lt_irrefl _ H).
Qed.

Lemma not_lt_empty (a : string) : ~ StdMap.key_lt a "".
Proof. destruct a; discriminate. Qed.

Section StdMapFacts.

Context {V : Type}.
Implicit Types (m : StdMap.t V) (k : string) (f g : V -> V) (d v : V).

Lemma upd_upd k f g d d' m :
  StdMap.upd k f d (StdMap.upd k g d' m) =
  StdMap.upd k (fun v => f (g v)) d' m.
Proof.
  induction m as [|[k' v'] r IH]; simpl.
  - rewrite compare_refl. reflexivity.
  - destruct (String.compare k k') eqn:E; simpl.
    + rewrite E. reflexivity.
    + rewrite compare_refl. reflexivity.
    + rewrite E, IH. reflexivity.
Qed.

Lemma upd_ext k f g d m :
  (forall v, f v = g v) -> StdMap.upd k f d m = StdMap.upd k g d m.
Proof.
  intros H. induction m as [|[k' v'] r IH]; simpl.
  - rewrite H. reflexivity.
  - destruct (String.compare k k'); rewrite ?H, ?IH; reflexivity.
Qed.

(** The reference [m[k]] denotes the element [find] sees afterwards:
    the value that was found, or a fresh one. *)
Lemma find_upd_same k f d m :
  (StdMap.find k m = None /\
   StdMap.find k (StdMap.upd k f d m) = Some (f d)) \/
  (exists v, StdMap.find k (StdMap.upd k f d m) = Some (f v) /\
             (StdMap.find k m = Some v \/ v = d)).
Proof.
  induction m as [|[k' v'] r IH]; simpl.
  - left. rewrite String.eqb_refl. auto.
  - destruct (String.compare k k') eqn:E; simpl.
    + apply String.compare_eq_iff in E. subst k'.
      rewrite String.eqb_refl. right. eauto.
    + rewrite String.eqb_refl. right. eauto.
    + assert (String.eqb k k' = false) as ->.
      { apply String.eqb_neq. intros ->. rewrite compare_refl in E.
        discriminate. }
      exact IH.
Qed.

Lemma find_upd_absent k f d m :
  StdMap.find k m = None ->
  StdMap.find k (StdMap.upd k f d m) = Some (f d).
Proof.
  induction m as [|[k' v'] r IH]; simpl.
  - rewrite String.eqb_refl. reflexivity.
  - destruct (String.eqb k k') eqn:Ek; [discriminate|]. intros H.
    destruct (String.compare k k') eqn:E; simpl.
    + apply String.compare_eq_iff in E. apply String.eqb_neq in Ek.
      contradiction.
    + rewrite String.eqb_refl. reflexivity.
    + rewrite Ek. auto.
Qed.

Lemma find_upd_other k k' f d m :
  k' <> k -> StdMap.find k' (StdMap.upd k f d m) = StdMap.find k' m.
Proof.
  intros Hne. induction m as [|[k2 v2] r IH]; simpl.
  - apply String.eqb_neq in Hne. rewrite Hne. reflexivity.
  - destruct (String.compare k k2) eqn:E; simpl.
    + apply String.compare_eq_iff in E. subst k2.
      apply String.eqb_neq in Hne. rewrite Hne. reflexivity.
    + apply String.eqb_neq in Hne. rewrite Hne. reflexivity.
    + rewrite IH. reflexivity.
Qed.

Lemma find_some_in k v m :
  StdMap.find k m = Some v -> In k (StdMap.keys m).
Proof.
  induction m as [|[k' v'] r IH]; simpl; [discriminate|].
  destruct (String.eqb k k') eqn:E.
  - apply String.eqb_eq in E. auto.
  - auto.
Qed.

Lemma find_upd_present k f d v m :
  StdMap.ok m -> StdMap.find k m = Some v ->
  StdMap.find k (StdMap.upd k f d m) = Some (f v).
Proof.
  unfold StdMap.ok.
  induction m as [|[k' v'] r IH]; simpl; [discriminate|].
  intros Hok Hf. inversion Hok as [|? ? Hr Hall]; subst.
  destruct (String.eqb k k') eqn:Ek.
  - apply String.eqb_eq in Ek. subst k'. injection Hf as ->.
    rewrite compare_refl. simpl. rewrite String.eqb_refl. reflexivity.
  - destruct (String.compare k k') eqn:E; simpl.
    + apply String.compare_eq_iff in E. apply String.eqb_neq in Ek.
      contradiction.
    + apply find_some_in in Hf.
      rewrite Forall_forall in Hall. specialize (Hall _ Hf).
      apply key_lt_gt in Hall. congruence.
    + rewrite Ek. auto.
Qed.

Lemma keys_upd_forall k f d m (P : string -> Prop) :
  P k -> Forall P (StdMap.keys m) ->
  Forall P (StdMap.keys (StdMap.upd k f d m)).
Proof.
  intros Hk. induction m as [|[k' v'] r IH]; simpl; intros H.
  - auto.
  - inversion H; subst.
    destruct (String.compare k k'); simpl; auto.
Qed.

Lemma upd_ok k f d m : StdMap.ok m -> StdMap.ok (StdMap.upd k f d m).
Proof.
  unfold StdMap.ok.
  induction m as [|[k' v'] r IH]; simpl; intros Hok.
  - repeat constructor.
  - inversion Hok as [|? ? Hr Hall]; subst.
    destruct (String.compare k k') eqn:E; simpl.
    + constructor; assumption.
    + constructor; [exact Hok|].
      constructor; [exact E|].
      eapply Forall_impl; [|exact Hall].
      intros a Ha. eapply key_lt_trans; eassumption.
    + constructor; [auto|].
      apply keys_upd_forall; [|assumption].
      now apply gt_key_lt.
Qed.

(** A key above all keys of a prefix is looked for behind it. *)
Lemma upd_app k f d (P tl : StdMap.t V) :
  Forall (fun key => StdMap.key_lt key k) (StdMap.keys P) ->
  StdMap.upd k f d (P ++ tl)%list = (P ++ StdMap.upd k f d tl)%list.
Proof.
  induction P as [|[k' v'] r IH]; simpl; intros H; [reflexivity|].
  inversion H; subst. rewrite (key_lt_gt k' k), IH by assumption.
  reflexivity.
Qed.

Lemma upd_single k f d v : StdMap.upd k f d [(k, v)] = [(k, f v)].
Proof. simpl. rewrite compare_refl. reflexivity. Qed.

End StdMapFacts.

Lemma sorted_app_before (l1 l2 : list string) (x : string) :
  StronglySorted StdMap.key_lt (l1 ++ x :: l2)%list ->
  Forall (fun y => StdMap.key_lt y x) l1.
Proof.
  induction l1 as [|a l1 IH]; simpl; intros H; [constructor|].
  inversion H as [|? ? Hs Hall]; subst. constructor; [|auto].
  rewrite Forall_forall in Hall. apply Hall.
  apply in_or_app. right. left. reflexivity.
Qed.

(** ** getStr *)

Lemma getStr_section_ref (sect key : string) (dm : DataMap)
  (g : KeyValMap -> KeyValMap) :
  exists_ sect key dm = false ->
  exists kv, StdMap.find sect (StdMap.upd sect g [] dm) = Some (g kv) /\
             StdMap.find key kv = None.
Proof.
  unfold exists_. intros H.
  destruct (find_upd_same sect g [] dm) as [[Hn Hf]|[v [Hf [Hv| ->]]]].
  - exists []. auto.
  - exists v. split; [assumption|]. rewrite Hv in H.
    destruct (StdMap.find key v); [discriminate | reflexivity].
  - exists []. auto.
Qed.

(** C8: when (sect, key) is absent, [getStr sect key def] returns [def]
    and stores it at (sect, key); a second call with the same arguments
    returns [def] again and leaves the mapping as the first call left it.
    [getStr] is a total function: it has no failing outcome. *)
Theorem getStr_idempotent (sect key def : string) (dm : DataMap) :
  exists_ sect key dm = false ->
  snd (getStr sect key def dm) = def /\
  value_at sect key (fst (getStr sect key def dm)) = Some def /\
  getStr sect key def (fst (getStr sect key def dm)) =
    (fst (getStr sect key def dm), def).
Proof.
  intros Habs.
  assert (Hfirst : getStr sect key def dm =
            (StdMap.upd sect (StdMap.insert key def) [] dm, def)).
  { unfold getStr, StdMap.subscript. cbv zeta.
    destruct (getStr_section_ref sect key dm (fun v => v) Habs)
      as [kv [Hs Hkv]].
    rewrite Hs, Hkv, upd_upd. reflexivity. }
  rewrite Hfirst. cbn [fst snd].
  destruct (getStr_section_ref sect key dm (StdMap.insert key def) Habs)
    as [kv [Hs Hkv]].
  assert (Hval : StdMap.find key (StdMap.insert key def kv) = Some def).
  { unfold StdMap.insert. now rewrite find_upd_absent. }
  split; [reflexivity|]. split.
  - unfold value_at. rewrite Hs. exact Hval.
  - unfold getStr, StdMap.subscript. cbv zeta. rewrite upd_upd.
    rewrite (upd_ext sect _ (StdMap.insert key def)) by reflexivity.
    rewrite Hs, Hval. reflexivity.
Qed.

Lemma getStr_idempotent_witness :
  exists_ "s" "k" [("a", [("k", "1")])] = false /\
  getStr "s" "k" "d" (fst (getStr "s" "k" "d" [("a", [("k", "1")])])) =
    ([("a", [("k", "1")]); ("s", [("k", "d")])], "d").
Proof.
  split; [reflexivity|].
  exact (proj2 (proj2 (getStr_idempotent "s" "k" "d" [("a", [("k", "1")])]
                         eq_refl))).
Defined.

(** ** sync and close *)

Lemma sync_message_distinct (path : string) :
  path <> "" -> sync_message path <> sync_message "".
Proof.
  intros Hne. unfold sync_message.
  destruct path as [|c r]; [contradiction|]. simpl. discriminate.
Qed.

Lemma sync_unwritable (fs : FileSystem) (m : MiIni) :
  fs_writable fs (mFilename m) = false ->
  sync fs m = (fs, Threw (runtime_error (sync_message (mFilename m)))).
Proof. intros H. unfold sync. rewrite H. reflexivity. Qed.

(** C5: when the file cannot be opened, [sync] throws a
    [std::runtime_error], with the "no linked file" message on a MiIni
    without a linked path and with a different message on a MiIni linked to
    a path; in neither case is the thrown object a [FileError]. *)
Theorem sync_throws_runtime_error :
  sync fs_none MiIni_new =
    (fs_none,
     Threw (runtime_error
              "No linked file specified to be synced to this MinIni!")) /\
  sync fs_none m_linked =
    (fs_none, Threw (runtime_error (sync_message "out.ini"))) /\
  sync_message "out.ini" <> sync_message "" /\
  forall what,
    snd (sync fs_none MiIni_new) <> Threw (FileError what) /\
    snd (sync fs_none m_linked) <> Threw (FileError what).
Proof.
  split; [reflexivity|]. split; [reflexivity|]. split.
  - apply sync_message_distinct. discriminate.
  - intros what. split; discriminate.
Qed.

(** C6 as stated fails: with a linked path, auto-sync on and a file that
    cannot be opened, [close] throws and leaves the mapping, the path and
    the auto-sync flag as they were. *)
Lemma close_keeps_state_when_sync_throws :
  snd (close fs_none m_linked) <> Returned /\
  dataMap (snd (fst (close fs_none m_linked))) <> [] /\
  mFilename (snd (fst (close fs_none m_linked))) <> "" /\
  mAutoSync (snd (fst (close fs_none m_linked))) <> false.
Proof. repeat split; discriminate. Qed.

(** C6, amended: [close] calls [sync] exactly when a path is linked and
    auto-sync is on. When [sync] is not called or returns, [close] clears
    the mapping and resets the path and the flag; when [sync] throws, the
    exception leaves [close] and the MiIni is unchanged. *)
Theorem close_spec (fs fs' : FileSystem) (m : MiIni) (out : Outcome) :
  sync fs m = (fs', out) ->
  close fs m =
    if negb (Nat.eqb (String.length (mFilename m)) 0) && mAutoSync m
    then (fs', match out with Returned => MiIni_new | Threw _ => m end, out)
    else (fs, MiIni_new, Returned).
Proof.
  intros H. unfold close. rewrite H.
  destruct (negb _ && _); [|reflexivity].
  destruct out; reflexivity.
Qed.

Lemma close_spec_witness :
  close fs_none m_linked =
    (fs_none, m_linked,
     Threw (runtime_error (sync_message "out.ini"))) /\
  close fs_any m_linked =
    (fs_store "out.ini" (write "" (dataMap m_linked)) fs_any,
     MiIni_new, Returned) /\
  close fs_none (mkMiIni "out.ini" false [("", [("k", "v")])]) =
    (fs_none, MiIni_new, Returned).
Proof.
  split; [|split].
  - exact (close_spec fs_none fs_none m_linked _ eq_refl).
  - exact (close_spec fs_any _ m_linked _ eq_refl).
  - exact (close_spec fs_none fs_none
             (mkMiIni "out.ini" false [("", [("k", "v")])]) _ eq_refl).
Defined.

(** ** The loop of readMore *)

Lemma readMore_body_classify (ign : bool) (ln : string) (st : ReadState) :
  readMore_body ign ln st =
  let line := size_incr (rs_line st) in
  match classify ln with
  | Blank => (mkReadState (rs_sect st) line (rs_data st), Returned)
  | Header name =>
      (mkReadState name line (StdMap.subscript name [] (rs_data st)),
       Returned)
  | Assignment key val =>
      (mkReadState (rs_sect st) line
         (StdMap.upd (rs_sect st) (StdMap.assign key val) [] (rs_data st)),
       Returned)
  | Malformed =>
      (mkReadState (rs_sect st) line (rs_data st),
       if ign then Returned
       else Threw (FormatException (format_message line) line))
  end.
Proof.
  unfold readMore_body, classify. cbv zeta.
  destruct (negb (Nat.eqb (String.length (strip ln)) 0)); [|reflexivity].
  destruct (match front (strip ln) with
            | Some c => Ascii.eqb c "["
            | None => false
            end); [reflexivity|].
  destruct (find_first_of (strip ln) "="); [reflexivity|].
  destruct ign; reflexivity.
Qed.

Lemma readMore_loop_app (ign : bool) (l1 l2 : list string) (st : ReadState) :
  readMore_loop ign (l1 ++ l2)%list st =
  match readMore_loop ign l1 st with
  | (st', Returned) => readMore_loop ign l2 st'
  | thrown => thrown
  end.
Proof.
  revert st; induction l1 as [|ln l1 IH]; intros st; simpl; [reflexivity|].
  destruct (readMore_body ign ln st) as [st' [|e]]; [apply IH | reflexivity].
Qed.

Lemma readMore_body_line (ign : bool) (ln : string) (st : ReadState) :
  rs_line (fst (readMore_body ign ln st)) = size_incr (rs_line st).
Proof.
  rewrite readMore_body_classify. cbv zeta.
  destruct (classify ln); reflexivity.
Qed.

Lemma readMore_loop_line (ign : bool) (lns : list string)
  (st st' : ReadState) :
  readMore_loop ign lns st = (st', Returned) ->
  rs_line st' = Nat.iter (length lns) size_incr (rs_line st).
Proof.
  revert st; induction lns as [|ln lns IH]; intros st; simpl.
  - intros [= <-]. reflexivity.
  - pose proof (readMore_body_line ign ln st) as Hl.
    destruct (readMore_body ign ln st) as [st1 [|e]]; [|discriminate].
    intros H. apply IH in H. rewrite H. simpl in Hl. rewrite Hl.
    change (size_incr (Nat.iter (length lns) size_incr (rs_line st)))
      with (Nat.iter (S (length lns)) size_incr (rs_line st)).
    rewrite Nat.iter_succ_r. reflexivity.
Qed.

Lemma iter_size_incr (k : nat) :
  Nat.iter k size_incr 0%N = (N.of_nat k mod 2 ^ 64)%N.
Proof.
  induction k as [|k IH]; [reflexivity|].
  rewrite Nat.iter_succ, IH. unfold size_incr.
  rewrite N.Div0.add_mod_idemp_l. f_equal. lia.
Qed.


(** A thrown exception comes from the first malformed line; the lines
    before it were processed, the lines after it were not. *)
Lemma readMore_loop_throw (ign : bool) (lns : list string)
  (st st' : ReadState) (e : Exception) :
  readMore_loop ign lns st = (st', Threw e) ->
  exists pre bad post st1,
    lns = (pre ++ bad :: post)%list /\
    readMore_loop ign pre st = (st1, Returned) /\
    classify bad = Malformed /\ ign = false /\
    rs_data st' = rs_data st1 /\
    e = FormatException (format_message (size_incr (rs_line st1)))
                        (size_incr (rs_line st1)).
Proof.
  revert st; induction lns as [|ln lns IH]; intros st; simpl; [discriminate|].
  destruct (readMore_body ign ln st) as [st1 [|e1]] eqn:Hb.
  - intros H. destruct (IH _ H) as (pre & bad & post & st2 & -> & Hp & Hrest).
    exists (ln :: pre), bad, post, st2. split; [reflexivity|].
    split; [|exact Hrest]. simpl. rewrite Hb. exact Hp.
  - intros [= <- <-]. exists [], ln, lns, st. split; [reflexivity|].
    split; [reflexivity|].
    rewrite readMore_body_classify in Hb. cbv zeta in Hb.
    destruct (classify ln); try discriminate.
    destruct ign; [discriminate|]. injection Hb as <- <-. auto.
Qed.

Lemma readMore_loop_ignore_returns (lns : list string) (st : ReadState) :
  snd (readMore_loop true lns st) = Returned.
Proof.
  revert st; induction lns as [|ln lns IH]; intros st; simpl; [reflexivity|].
  rewrite readMore_body_classify. cbv zeta.
  destruct (classify ln); apply IH.
Qed.

(** With [ignoreErrors] the line counter has no influence on the
    section and the mapping. *)
Lemma readMore_loop_ignore_line (lns : list string) (sect : string)
  (l1 l2 : N) (dm : DataMap) :
  rs_data (fst (readMore_loop true lns (mkReadState sect l1 dm))) =
  rs_data (fst (readMore_loop true lns (mkReadState sect l2 dm))).
Proof.
  revert sect l1 l2 dm; induction lns as [|ln lns IH]; intros; simpl;
    [reflexivity|].
  rewrite !readMore_body_classify. cbv zeta.
  destruct (classify ln); apply IH.
Qed.

(** ** Kinds of lines *)






(** A comment line is cut after its ['#'], not before it. *)
Lemma strip_comment_line (ln : string) :
  comment_line ln = true -> strip ln = "#".
Proof.
  unfold comment_line.
  destruct (first_nonblank ln) as [c|] eqn:Hc; [|discriminate].
  intros H. apply Ascii.eqb_eq in H. subst c.
  unfold strip.
  pose proof (front_erase_trailing_spaces (erase_leading_spaces ln) "#") as Hf.
  rewrite front_erase_leading_spaces in Hf. specialize (Hf Hc eq_refl).
  destruct (erase_trailing_spaces (erase_leading_spaces ln)) as [|d r];
    [discriminate|].
  injection Hf as ->. reflexivity.
Qed.

Lemma comment_line_malformed (ln : string) :
  comment_line ln = true -> classify ln = Malformed.
Proof.
  intros H. unfold classify. rewrite (strip_comment_line _ H). reflexivity.
Qed.

(** ** Comments *)

(** C1: parsing the line ["k = v # comment"] stores under key ["k"] the
    value ["v #"]: the text after ['#'] is erased, the ['#'] itself and
    the space before it are kept, so the stored value is not ["v"]. *)
Theorem readMore_trailing_comment :
  readMore ("k = v # comment" ++ endl) false [] =
    ([("", [("k", "v #")])], Returned) /\
  value_at "" "k" (fst (readMore ("k = v # comment" ++ endl) false []))
    <> Some "v".
Proof. split; [reflexivity | discriminate]. Qed.

(** C7: a line holding only a comment is not skipped when
    [ignoreErrors] is off: the line is cut down to ["#"], which is neither
    empty nor a header nor an assignment, and [readMore] throws a
    [FormatException] for line 1. *)
Theorem readMore_comment_only_line :
  readMore ("# comment" ++ endl) false [] =
    ([], Threw (FormatException "Wrong ini file format at line 1!" 1)).
Proof. reflexivity. Qed.

(** ** Format errors *)






Lemma readMore_throw_prefix (is_ : InputStream) (dm dm' : DataMap)
  (what : string) (n : N) :
  readMore is_ false dm = (dm', Threw (FormatException what n)) ->
  exists pre bad post,
    getlines is_ = (pre ++ bad :: post)%list /\
    n = (N.of_nat (length pre + 1) mod 2 ^ 64)%N /\
    forall is_pre, getlines is_pre = pre ->
                   readMore is_pre false dm = (dm', Returned).
Proof.
  unfold readMore.
  destruct (readMore_loop false (getlines is_) (mkReadState "" 0 dm))
    as [st out] eqn:Hl.
  intros [= <- ->].
  apply readMore_loop_throw in Hl
    as (pre & bad & post & st1 & Hlns & Hp & _ & _ & Hd & He).
  exists pre, bad, post. split; [exact Hlns|]. split.
  - injection He as _ ->.
    rewrite (readMore_loop_line _ _ _ _ Hp). simpl.
    change (size_incr (Nat.iter (length pre) size_incr 0%N))
      with (Nat.iter (S (length pre)) size_incr 0%N).
    rewrite iter_size_incr. f_equal. lia.
  - intros is_pre ->. rewrite Hp, Hd. reflexivity.
Qed.

(** C9: when [readMore] or [read] throws a [FormatException] for line
    [n], the mapping it leaves is exactly the mapping that parsing the
    lines before [n] produces: what those lines stored is kept, nothing is
    rolled back. *)
Theorem format_error_keeps_parsed_lines (is_ : InputStream)
  (dm dm' : DataMap) (what : string) (n : N) :
  (readMore is_ false dm = (dm', Threw (FormatException what n)) ->
   exists pre bad post,
     getlines is_ = (pre ++ bad :: post)%list /\
     n = (N.of_nat (length pre + 1) mod 2 ^ 64)%N /\
     forall is_pre, getlines is_pre = pre ->
                    readMore is_pre false dm = (dm', Returned)) /\
  (read is_ false dm = (dm', Threw (FormatException what n)) ->
   exists pre bad post,
     getlines is_ = (pre ++ bad :: post)%list /\
     n = (N.of_nat (length pre + 1) mod 2 ^ 64)%N /\
     forall is_pre, getlines is_pre = pre ->
                    read is_pre false dm = (dm', Returned)).
Proof.
  split; [apply readMore_throw_prefix|].
  unfold read. apply readMore_throw_prefix.
Qed.

Lemma format_error_keeps_parsed_lines_witness :
  readMore ("a=1" ++ endl ++ "[s]" ++ endl ++ "b=2" ++ endl ++ "bad" ++ endl
            ++ "c=3" ++ endl) false [("z", [])] =
    ([("", [("a", "1")]); ("s", [("b", "2")]); ("z", [])],
     Threw (FormatException "Wrong ini file format at line 4!" 4)) /\
  exists pre bad post,
    getlines ("a=1" ++ endl ++ "[s]" ++ endl ++ "b=2" ++ endl ++ "bad" ++ endl
              ++ "c=3" ++ endl) = (pre ++ bad :: post)%list /\
    4%N = (N.of_nat (length pre + 1) mod 2 ^ 64)%N /\
    forall is_pre, getlines is_pre = pre ->
      readMore is_pre false [("z", [])] =
        ([("", [("a", "1")]); ("s", [("b", "2")]); ("z", [])], Returned).
Proof.
  split; [reflexivity|].
  exact (proj1 (format_error_keeps_parsed_lines
                  ("a=1" ++ endl ++ "[s]" ++ endl ++ "b=2" ++ endl ++ "bad"
                   ++ endl ++ "c=3" ++ endl)
                  [("z", [])]
                  [("", [("a", "1")]); ("s", [("b", "2")]); ("z", [])]
                  "Wrong ini file format at line 4!" 4%N)
               eq_refl).
Defined.

(** ** The key order is kept by every operation *)

Lemma upd_forall_snd {V : Type} (P : V -> Prop) (k : string) (f : V -> V)
  (d : V) (m : StdMap.t V) :
  P (f d) -> (forall v, P v -> P (f v)) ->
  Forall (fun e => P (snd e)) m ->
  Forall (fun e => P (snd e)) (StdMap.upd k f d m).
Proof.
  intros Hd Hf. induction m as [|[k' v'] r IH]; simpl; intros H.
  - constructor; [exact Hd | constructor].
  - inversion H; subst. simpl in *.
    destruct (String.compare k k'); constructor; simpl; auto.
Qed.

Lemma DataMap_ok_upd (sect : string) (f : KeyValMap -> KeyValMap)
  (dm : DataMap) :
  StdMap.ok (f []) -> (forall kv, StdMap.ok kv -> StdMap.ok (f kv)) ->
  DataMap_ok dm -> DataMap_ok (StdMap.upd sect f [] dm).
Proof.
  intros Hd Hf [Ho Hi]. split.
  - now apply upd_ok.
  - now apply (upd_forall_snd (fun kv => StdMap.ok kv)).
Qed.

Lemma ok_nil {V : Type} : StdMap.ok (@nil (string * V)).
Proof. constructor. Qed.

Lemma DataMap_ok_nil : DataMap_ok [].
Proof. split; constructor. Qed.

Lemma setStr_ok (sect key val : string) (dm : DataMap) :
  DataMap_ok dm -> DataMap_ok (setStr sect key val dm).
Proof.
  apply DataMap_ok_upd.
  - apply upd_ok, ok_nil.
  - intros kv. apply upd_ok.
Qed.

Lemma subscript_ok (sect : string) (dm : DataMap) :
  DataMap_ok dm -> DataMap_ok (StdMap.subscript sect [] dm).
Proof. apply DataMap_ok_upd; [apply ok_nil | auto]. Qed.

Lemma readMore_body_ok (ign : bool) (ln : string) (st : ReadState) :
  DataMap_ok (rs_data st) ->
  DataMap_ok (rs_data (fst (readMore_body ign ln st))).
Proof.
  intros H. rewrite readMore_body_classify. cbv zeta.
  destruct (classify ln); simpl; auto using subscript_ok.
  now apply setStr_ok.
Qed.

Lemma readMore_loop_ok (ign : bool) (lns : list string) (st : ReadState) :
  DataMap_ok (rs_data st) ->
  DataMap_ok (rs_data (fst (readMore_loop ign lns st))).
Proof.
  revert st; induction lns as [|ln lns IH]; intros st H; simpl; [exact H|].
  pose proof (readMore_body_ok ign ln st H) as Hb.
  destruct (readMore_body ign ln st) as [st1 [|e]]; simpl in *; auto.
Qed.

Lemma insert_all_ok (ops : list (string * string * string)) (dm : DataMap) :
  DataMap_ok dm -> DataMap_ok (insert_all ops dm).
Proof.
  revert dm; induction ops as [|op ops IH]; intros dm H; simpl; [exact H|].
  apply IH. now apply setStr_ok.
Qed.

(** ** Stored keys stay stored *)

Lemma assign_keeps_keys (key k2 v2 : string) (kv : KeyValMap) :
  StdMap.find key kv <> None ->
  StdMap.find key (StdMap.assign k2 v2 kv) <> None.
Proof.
  intros H. unfold StdMap.assign.
  destruct (String.eqb key k2) eqn:E.
  - apply String.eqb_eq in E. subst k2.
    destruct (find_upd_same key (fun _ => v2) v2 kv) as [[_ ->]|[v [-> _]]];
      discriminate.
  - apply String.eqb_neq in E. now rewrite find_upd_other.
Qed.

Lemma exists_upd (s key s2 : string) (f : KeyValMap -> KeyValMap)
  (dm : DataMap) :
  StdMap.ok dm ->
  (forall kv, StdMap.find key kv <> None -> StdMap.find key (f kv) <> None) ->
  exists_ s key dm = true ->
  exists_ s key (StdMap.upd s2 f [] dm) = true.
Proof.
  intros Hok Hf. unfold exists_.
  destruct (StdMap.find s dm) as [kv|] eqn:Hs; [|discriminate].
  destruct (StdMap.find key kv) as [v|] eqn:Hk; [|discriminate]. intros _.
  destruct (String.eqb s s2) eqn:E.
  - apply String.eqb_eq in E. subst s2.
    rewrite (find_upd_present s f [] kv dm Hok Hs).
    specialize (Hf kv). rewrite Hk in Hf.
    destruct (StdMap.find key (f kv)); [reflexivity|].
    exfalso. apply Hf; [discriminate | reflexivity].
  - apply String.eqb_neq in E. rewrite find_upd_other, Hs, Hk by assumption.
    reflexivity.
Qed.

Lemma readMore_body_exists (ign : bool) (ln s key : string)
  (st : ReadState) :
  DataMap_ok (rs_data st) ->
  exists_ s key (rs_data st) = true ->
  exists_ s key (rs_data (fst (readMore_body ign ln st))) = true.
Proof.
  intros [Hok _] H. rewrite readMore_body_classify. cbv zeta.
  destruct (classify ln); simpl; auto.
  - apply exists_upd; auto.
  - apply exists_upd; auto. intros kv. apply assign_keeps_keys.
Qed.

Lemma readMore_loop_exists (ign : bool) (lns : list string) (s key : string)
  (st : ReadState) :
  DataMap_ok (rs_data st) ->
  exists_ s key (rs_data st) = true ->
  exists_ s key (rs_data (fst (readMore_loop ign lns st))) = true.
Proof.
  revert st; induction lns as [|ln lns IH]; intros st Hok H; simpl;
    [exact H|].
  pose proof (readMore_body_ok ign ln st Hok) as Hb.
  pose proof (readMore_body_exists ign ln s key st Hok H) as He.
  destruct (readMore_body ign ln st) as [st1 [|e]]; simpl in *; auto.
Qed.

(** ** The section a call starts in *)

(** Lines before the first header leave the current section alone. *)
Lemma readMore_loop_no_header (ign : bool) (pre : list string)
  (st : ReadState) :
  Forall (fun l => (forall name, classify l <> Header name) /\
                   (classify l = Malformed -> ign = true)) pre ->
  exists st1, readMore_loop ign pre st = (st1, Returned) /\
              rs_sect st1 = rs_sect st.
Proof.
  intros H. revert st. induction H as [|ln pre [Hh Hm] _ IH]; intros st.
  - exists st. auto.
  - simpl. rewrite readMore_body_classify. cbv zeta.
    destruct (classify ln) eqn:E;
      [ | exfalso; exact (Hh _ eq_refl) | | rewrite (Hm eq_refl) in * ];
      match goal with
      | |- context [readMore_loop _ pre ?s] => exact (IH s)
      end.
Qed.

Lemma value_at_setStr (sect key val : string) (dm : DataMap) :
  value_at sect key (setStr sect key val dm) = Some val.
Proof.
  unfold value_at, setStr.
  destruct (find_upd_same sect (StdMap.assign key val) [] dm)
    as [[_ ->]|[v [-> _]]]; unfold StdMap.assign.
  - simpl. rewrite String.eqb_refl. reflexivity.
  - destruct (find_upd_same key (fun _ => val) val v)
      as [[_ ->]|[v' [-> _]]]; reflexivity.
Qed.

(** C10: whatever the mapping [dm] holds when [readMore] is called (for
    instance the result of an earlier parse that ended inside a named
    section), an assignment line that comes before the first header line of
    the stream is stored in the section with the empty name: its key exists
    there when the call ends, and holds the line's value when the line is
    the last one of the stream. *)
Theorem readMore_starts_in_default_section (is_ : InputStream)
  (ign : bool) (dm : DataMap) (pre post : list string)
  (ln key val : string) :
  DataMap_ok dm ->
  getlines is_ = (pre ++ ln :: post)%list ->
  Forall (fun l => (forall name, classify l <> Header name) /\
                   (classify l = Malformed -> ign = true)) pre ->
  classify ln = Assignment key val ->
  exists_ "" key (fst (readMore is_ ign dm)) = true /\
  (post = [] ->
   snd (readMore is_ ign dm) = Returned /\
   value_at "" key (fst (readMore is_ ign dm)) = Some val).
Proof.
  intros Hok Hlns Hpre Hln. unfold readMore. rewrite Hlns.
  rewrite readMore_loop_app.
  destruct (readMore_loop_no_header ign pre (mkReadState "" 0 dm) Hpre)
    as [st1 [Hp Hs]].
  pose proof (readMore_loop_ok ign pre (mkReadState "" 0 dm) Hok) as Hok1.
  rewrite Hp in *. simpl in Hs, Hok1. cbn [readMore_loop].
  rewrite readMore_body_classify, Hln, Hs. cbv zeta.
  fold (setStr "" key val (rs_data st1)).
  assert (Hv : value_at "" key (setStr "" key val (rs_data st1)) = Some val)
    by apply value_at_setStr.
  split.
  - match goal with
    | |- context [readMore_loop ign post ?s] =>
        pose proof (readMore_loop_exists ign post "" key s) as He;
        destruct (readMore_loop ign post s) as [st2 out2]
    end.
    simpl in *. apply He.
    + now apply setStr_ok.
    + unfold value_at in Hv. unfold exists_.
      destruct (StdMap.find "" (setStr "" key val (rs_data st1)));
        [|discriminate]. rewrite Hv. reflexivity.
  - intros ->. simpl. auto.
Qed.

Lemma readMore_starts_in_default_section_witness :
  fst (readMore ("[named]" ++ endl ++ "a = 1" ++ endl) false []) =
    [("named", [("a", "1")])] /\
  readMore (endl ++ "b = 2") false [("named", [("a", "1")])] =
    ([("", [("b", "2")]); ("named", [("a", "1")])], Returned) /\
  value_at "" "b"
    (fst (readMore (endl ++ "b = 2") false [("named", [("a", "1")])])) =
    Some "2".
Proof.
  split; [reflexivity|]. split; [reflexivity|].
  refine (proj2 (proj2 (readMore_starts_in_default_section
            (endl ++ "b = 2") false [("named", [("a", "1")])]
            [""] [] "b = 2" "b" "2" _ eq_refl _ eq_refl) eq_refl)).
  - split; repeat constructor.
  - constructor; [|constructor]. split; [discriminate|discriminate].
Defined.

(** ** The text written by write *)

Lemma unlines_app (l1 l2 : list string) :
  unlines (l1 ++ l2)%list = unlines l1 ++ unlines l2.
Proof.
  induction l1 as [|ln l1 IH]; [reflexivity|].
  change ((ln :: l1) ++ l2)%list with (ln :: (l1 ++ l2))%list.
  rewrite !unlines_cons, IH, !append_assoc. reflexivity.
Qed.

Lemma write_keyvals_text (kvs : KeyValMap) (os : OutputStream) :
  fold_left write_keyval kvs os = os ++ unlines (map keyval_line kvs).
Proof.
  revert os; induction kvs as [|kv kvs IH]; intros os; simpl.
  - unfold unlines. simpl. now rewrite append_nil_r.
  - rewrite IH. unfold write_keyval.
    change (map keyval_line (kv :: kvs))
      with (keyval_line kv :: map keyval_line kvs).
    rewrite unlines_cons. unfold keyval_line.
    rewrite !append_assoc. reflexivity.
Qed.

Lemma write_sect_text (sect : string * KeyValMap) (os : OutputStream) :
  write_sect os sect = os ++ unlines (sect_lines sect).
Proof.
  unfold write_sect, sect_lines. cbv zeta.
  rewrite write_keyvals_text.
  destruct (negb (String.eqb (fst sect) "")).
  - rewrite !unlines_app. unfold header_line.
    change (unlines [""]) with endl.
    change (unlines ["[" ++ fst sect ++ "]"])
      with (("[" ++ fst sect ++ "]") ++ endl).
    rewrite !append_assoc. reflexivity.
  - rewrite !unlines_app. change (unlines [""]) with endl.
    change (unlines []) with "". simpl. rewrite !append_assoc. reflexivity.
Qed.

Lemma write_text (dm : DataMap) (os : OutputStream) :
  write os dm = os ++ unlines (ini_lines dm).
Proof.
  unfold write, ini_lines.
  revert os; induction dm as [|sect dm IH]; intros os; simpl.
  - unfold unlines. simpl. now rewrite append_nil_r.
  - rewrite IH, write_sect_text, unlines_app, append_assoc. reflexivity.
Qed.

(** ** What a sequence of insertions stores *)

Lemma value_at_setStr_other (sect key s k val : string) (dm : DataMap) :
  DataMap_ok dm -> (s, k) <> (sect, key) ->
  value_at sect key (setStr s k val dm) = value_at sect key dm.
Proof.
  intros [Hok Hin] Hne. unfold value_at, setStr.
  destruct (String.eqb sect s) eqn:Es.
  - apply String.eqb_eq in Es. subst s.
    assert (Hk : key <> k) by congruence.
    destruct (StdMap.find sect dm) as [kv|] eqn:Hs.
    + rewrite (find_upd_present sect _ [] kv dm Hok Hs).
      unfold StdMap.assign. now rewrite find_upd_other.
    + rewrite find_upd_absent by assumption.
      unfold StdMap.assign. now rewrite find_upd_other.
  - apply String.eqb_neq in Es. now rewrite find_upd_other.
Qed.

Lemma value_at_insert_all (ops : list (string * string * string))
  (sect key : string) (dm : DataMap) :
  DataMap_ok dm ->
  value_at sect key (insert_all ops dm) =
  match last_set sect key ops with
  | Some v => Some v
  | None => value_at sect key dm
  end.
Proof.
  revert dm; induction ops as [|[[s k] v] ops IH]; intros dm Hok;
    [reflexivity|].
  simpl. rewrite IH by now apply setStr_ok.
  destruct (last_set sect key ops); [reflexivity|].
  destruct (String.eqb s sect) eqn:Es; simpl.
  - destruct (String.eqb k key) eqn:Ek.
    + apply String.eqb_eq in Es, Ek. subst. apply value_at_setStr.
    + apply String.eqb_neq in Ek. apply value_at_setStr_other; congruence.
  - apply String.eqb_neq in Es. apply value_at_setStr_other; congruence.
Qed.

(** C3 as stated fails: the section ["b"] is inserted before the section
    ["a"], and [write] emits ["[a]"] first. *)
Lemma write_not_in_insertion_order :
  write "" (insert_all ops_b_then_a []) =
    "[a]" ++ endl ++ "k = 2" ++ endl ++ endl ++
    "[b]" ++ endl ++ "k = 1" ++ endl ++ endl /\
  write "" (insert_all ops_b_then_a []) <>
    write "" (InsertionOrder.insert_all ops_b_then_a).
Proof. split; [reflexivity | discriminate]. Qed.

(** C3, amended: after any sequence of insertions the section names, and
    the keys inside every section, are in strictly ascending
    lexicographic order whatever the order of insertion was, every
    (section, key) holds the value assigned to it last, and [write] emits
    the sections and their keys in that ascending order: a ['[name]']
    line for a section whose name is not empty, one ['key = value'] line
    per key, and an empty line after every section. *)
Theorem write_in_key_order (ops : list (string * string * string)) :
  DataMap_ok (insert_all ops []) /\
  (forall sect key,
     value_at sect key (insert_all ops []) = last_set sect key ops) /\
  write "" (insert_all ops []) = unlines (ini_lines (insert_all ops [])).
Proof.
  split; [apply insert_all_ok, DataMap_ok_nil|]. split.
  - intros sect key. rewrite value_at_insert_all by apply DataMap_ok_nil.
    destruct (last_set sect key ops); reflexivity.
  - apply write_text.
Qed.

(** ** Lines written by write, read back *)

Lemma plain_parts (s : string) :
  plain s = true ->
  no_reserved s = true /\
  nonblank_or_none (front s) = true /\
  nonblank_or_none (back s) = true /\
  all_chars (is_not LF) s = true.
Proof.
  unfold plain, stated_plain, no_edge_blank. intros H.
  apply andb_true_iff in H as [H Hlf].
  apply andb_true_iff in H as [Hres H].
  apply andb_true_iff in H as [Hf Hb]. auto.
Qed.

Lemma no_reserved_is_not (s : string) (ch : ascii) :
  mem ch "#[]=" = true ->
  no_reserved s = true -> all_chars (is_not ch) s = true.
Proof.
  intros Hch. apply all_chars_impl. intros c Hc. unfold is_not.
  destruct (Ascii.eqb c ch) eqn:E; [|reflexivity].
  apply Ascii.eqb_eq in E. subst c. rewrite Hch in Hc. discriminate.
Qed.

Lemma back_app_char (a : string) (c : ascii) :
  back (a ++ String c "") = Some c.
Proof.
  induction a as [|d r IH]; [reflexivity|].
  simpl. rewrite IH. destruct (r ++ String c ""); [discriminate IH|].
  reflexivity.
Qed.

Lemma back_cons (c : ascii) (s : string) :
  s <> "" -> back (String c s) = back s.
Proof. destruct s; [contradiction | reflexivity]. Qed.

Lemma front_app (a b : string) : a <> "" -> front (a ++ b) = front a.
Proof. destruct a; [contradiction | reflexivity]. Qed.

Lemma drop_succ_length_app (a b : string) (c : ascii) :
  drop (String.length a + 1) (a ++ String c b) = b.
Proof. induction a; simpl; auto. Qed.

Lemma strip_no_comment (s : string) :
  nonblank_or_none (front s) = true ->
  nonblank_or_none (back s) = true ->
  all_chars (is_not "#") s = true ->
  strip s = s.
Proof.
  intros Hf Hb Hc. unfold strip.
  rewrite erase_leading_spaces_id, erase_trailing_spaces_id by assumption.
  now rewrite find_first_of_none.
Qed.

Lemma classify_empty : classify "" = Blank.
Proof. reflexivity. Qed.

Lemma classify_header_line (name : string) :
  plain name = true -> classify (header_line name) = Header name.
Proof.
  intros H. apply plain_parts in H as (Hres & Hf & Hb & _).
  unfold classify, header_line.
  rewrite strip_no_comment.
  - cbv zeta. simpl negb. cbn [front append]. rewrite Ascii.eqb_refl.
    f_equal. unfold header_name.
    change (find_first_of (String "[" (name ++ "]")) "]")
      with (option_map S (find_first_of (name ++ "]") "]")).
    rewrite find_first_of_app by now apply no_reserved_is_not.
    cbn [option_map pos_pred substr drop]. rewrite take_length_app.
    now rewrite erase_leading_spaces_id, erase_trailing_spaces_id.
  - reflexivity.
  - change ("[" ++ name ++ "]") with (String "[" (name ++ "]")).
    rewrite back_cons, back_app_char; [reflexivity|].
    destruct name; discriminate.
  - simpl. rewrite all_chars_app, no_reserved_is_not by auto. reflexivity.
Qed.

(** The line [key = value] after trimming: the key with its blank (or
    nothing, for an empty key), ['='], and the blank with the value (or
    nothing, for an empty value). *)
Lemma strip_keyval_line (key val : string) :
  plain key = true -> plain val = true ->
  exists K W,
    strip (keyval_line (key, val)) = K ++ String "=" W /\
    all_chars (is_not "=") K = true /\
    front (K ++ String "=" W) <> Some "["%char /\
    erase_trailing_spaces K = key /\
    erase_leading_spaces W = val.
Proof.
  intros Hk Hv.
  apply plain_parts in Hk as (Hkres & Hkf & Hkb & _).
  apply plain_parts in Hv as (Hvres & Hvf & Hvb & _).
  exists (erase_leading_spaces (key ++ " ")),
         (erase_trailing_spaces (String " " val)).
  assert (HW : erase_trailing_spaces (String "=" (String " " val)) =
               String "=" (erase_trailing_spaces (String " " val))).
  { rewrite (erase_trailing_spaces_cons "="). 
    destruct (erase_trailing_spaces (String " " val)); reflexivity. }
  assert (HK : erase_leading_spaces (key ++ " ") = "" /\ key = "" \/
               erase_leading_spaces (key ++ " ") = key ++ " " /\ key <> "").
  { destruct key as [|c r]; [left; split; reflexivity|]. right.
    split; [|discriminate]. apply erase_leading_spaces_id. exact Hkf. }
  assert (HWv : erase_trailing_spaces (String " " val) = "" /\ val = "" \/
                erase_trailing_spaces (String " " val) = String " " val /\
                val <> "").
  { destruct val as [|c r]; [left; split; reflexivity|]. right.
    split; [|discriminate]. apply erase_trailing_spaces_id.
    rewrite back_cons by discriminate. exact Hvb. }
  assert (Hstrip : strip (keyval_line (key, val)) =
                   erase_leading_spaces (key ++ " ") ++
                   String "=" (erase_trailing_spaces (String " " val))).
  { unfold strip, keyval_line. cbn [fst snd].
    assert (Hl : erase_leading_spaces (key ++ " = " ++ val) =
                 erase_leading_spaces (key ++ " ") ++
                 String "=" (String " " val)).
    { destruct HK as [[HK ->]|[HK Hne]].
      - reflexivity.
      - rewrite HK, erase_leading_spaces_id.
        + rewrite append_assoc. reflexivity.
        + rewrite front_app by assumption. exact Hkf. }
    rewrite Hl, erase_trailing_spaces_app by (rewrite HW; discriminate).
    rewrite HW. rewrite find_first_of_none; [reflexivity|].
    rewrite all_chars_app. apply andb_true_iff. split.
    - destruct HK as [[-> _]|[-> _]]; [reflexivity|].
      rewrite all_chars_app, no_reserved_is_not by auto. reflexivity.
    - destruct HWv as [[-> _]|[-> _]]; [reflexivity|].
      simpl. now apply no_reserved_is_not. }
  split; [exact Hstrip|]. split; [|split; [|split]].
  - destruct HK as [[-> _]|[-> _]]; [reflexivity|].
    rewrite all_chars_app, no_reserved_is_not by auto. reflexivity.
  - destruct HK as [[-> _]|[-> Hne]]; [discriminate|].
    rewrite append_assoc, front_app by assumption.
    pose proof (no_reserved_is_not key "[" eq_refl Hkres) as Hb.
    destruct key as [|c r]; [contradiction|]. simpl in *.
    apply andb_true_iff in Hb as [Hc _]. unfold is_not in Hc.
    apply negb_true_iff, Ascii.eqb_neq in Hc. congruence.
  - destruct HK as [[-> ->]|[-> _]]; [reflexivity|].
    rewrite erase_trailing_spaces_blank by reflexivity.
    now apply erase_trailing_spaces_id.
  - destruct HWv as [[-> ->]|[-> _]]; [reflexivity|].
    rewrite erase_leading_spaces_cons. simpl.
    now apply erase_leading_spaces_id.
Qed.

Lemma classify_keyval_line (key val : string) :
  plain key = true -> plain val = true ->
  classify (keyval_line (key, val)) = Assignment key val.
Proof.
  intros Hk Hv.
  destruct (strip_keyval_line key val Hk Hv)
    as (K & W & Hs & HK & Hfront & Hkey & Hval).
  unfold classify. rewrite Hs. cbv zeta.
  assert (Hlen : negb (Nat.eqb (String.length (K ++ String "=" W)) 0) = true).
  { rewrite length_append. simpl. rewrite Nat.add_succ_r. reflexivity. }
  rewrite Hlen.
  destruct (front (K ++ String "=" W)) as [c|] eqn:Hf.
  - destruct (Ascii.eqb c "[") eqn:Ec.
    + apply Ascii.eqb_eq in Ec. subst c. contradiction.
    + rewrite find_first_of_app by assumption.
      unfold assignment_key, assignment_val, substr.
      cbn [drop]. rewrite take_length_app, drop_succ_length_app.
      now rewrite Hkey, Hval.
  - destruct K; discriminate.
Qed.

(** ** Round trip *)

Lemma keys_app {V : Type} (a b : StdMap.t V) :
  StdMap.keys (a ++ b)%list = (StdMap.keys a ++ StdMap.keys b)%list.
Proof. apply map_app. Qed.

(** A key above all keys of the map is put at its end. *)
Lemma upd_at_end {V : Type} (k : string) (f : V -> V) (d : V)
  (m : StdMap.t V) :
  Forall (fun key => StdMap.key_lt key k) (StdMap.keys m) ->
  StdMap.upd k f d m = (m ++ [(k, f d)])%list.
Proof.
  intros H. pose proof (upd_app k f d m [] H) as E.
  rewrite app_nil_r in E. exact E.
Qed.

(** The assignment lines of one section, read while that section is the
    last one of the mapping. *)
Lemma readMore_loop_keyvals (ign : bool) (kvs : KeyValMap)
  (rest : list string) (sect : string) (P : DataMap) :
  forall (done : KeyValMap) (line : N),
  forallb (fun kv => plain (fst kv) && plain (snd kv)) kvs = true ->
  StdMap.ok (done ++ kvs)%list ->
  Forall (fun name => StdMap.key_lt name sect) (StdMap.keys P) ->
  exists line',
    readMore_loop ign (map keyval_line kvs ++ rest)%list
      (mkReadState sect line (P ++ [(sect, done)])%list) =
    readMore_loop ign rest
      (mkReadState sect line' (P ++ [(sect, (done ++ kvs)%list)])%list).
Proof.
  induction kvs as [|[k v] kvs IH]; intros done line Hpl Hok HP.
  - exists line. simpl. rewrite app_nil_r. reflexivity.
  - simpl in Hpl. apply andb_true_iff in Hpl as [Hkv Hpl].
    apply andb_true_iff in Hkv as [Hk Hv].
    assert (Hdone : Forall (fun key => StdMap.key_lt key k)
                      (StdMap.keys done)).
    { unfold StdMap.ok in Hok. rewrite keys_app in Hok.
      exact (sorted_app_before _ _ _ Hok). }
    destruct (IH (done ++ [(k, v)])%list (size_incr line) Hpl) as [line' Hl].
    + rewrite <- app_assoc. exact Hok.
    + exact HP.
    + exists line'. cbn [map app readMore_loop].
      rewrite readMore_body_classify, (classify_keyval_line k v Hk Hv).
      cbv zeta. cbn [rs_sect rs_line rs_data].
      rewrite upd_app, upd_single by assumption.
      unfold StdMap.assign at 1. rewrite upd_at_end by assumption.
      rewrite Hl, <- app_assoc. reflexivity.
Qed.

(** The lines of the sections [M], read when the mapping holds the
    sections [P] written before them. *)
Lemma readMore_loop_sections (ign : bool) (M : DataMap) :
  forall (P : DataMap) (sect : string) (line : N),
  map_all plain M = true ->
  StdMap.ok (P ++ M)%list ->
  Forall (fun s => StdMap.ok (snd s)) M ->
  (P = [] -> sect = "" /\ StdMap.find "" M <> Some []) ->
  exists st,
    readMore_loop ign (ini_lines M) (mkReadState sect line P) =
      (st, Returned) /\
    rs_data st = (P ++ M)%list.
Proof.
  induction M as [|[name kvs] M IH]; intros P sect line Hpl Hok Hin HP.
  - exists (mkReadState sect line P). simpl. rewrite app_nil_r. auto.
  - simpl in Hpl. apply andb_true_iff in Hpl as [Hs Hpl].
    apply andb_true_iff in Hs as [Hname Hkvs]. cbn [fst snd] in *.
    inversion Hin as [|? ? Hkok Hin']; subst. cbn [snd] in Hkok.
    assert (Hbefore : Forall (fun n => StdMap.key_lt n name) (StdMap.keys P)).
    { unfold StdMap.ok in Hok. rewrite keys_app in Hok.
      exact (sorted_app_before _ _ _ Hok). }
    assert (Hok' : StdMap.ok ((P ++ [(name, kvs)]) ++ M)%list).
    { rewrite <- app_assoc. exact Hok. }
    assert (HP' : (P ++ [(name, kvs)])%list = [] ->
                  name = "" /\ StdMap.find "" M <> Some []).
    { intros E. destruct P; discriminate E. }
    assert (Hblank : forall st0,
              exists st,
                readMore_loop ign ("" :: ini_lines M)
                  (mkReadState name (rs_line st0)
                     (P ++ [(name, kvs)])%list) = (st, Returned) /\
                rs_data st = (P ++ (name, kvs) :: M)%list).
    { intros st0. cbn [readMore_loop].
      rewrite readMore_body_classify, classify_empty. cbv zeta.
      cbn [rs_sect rs_line rs_data].
      destruct (IH (P ++ [(name, kvs)])%list name (size_incr (rs_line st0))
                  Hpl Hok' Hin' HP') as [st [Hl Hd]].
      exists st. split; [exact Hl|]. rewrite Hd, <- app_assoc. reflexivity. }
    unfold ini_lines. cbn [flat_map]. fold (ini_lines M).
    unfold sect_lines. cbn [fst snd].
    destruct (String.eqb name "") eqn:En; cbn [negb app].
    + (* the default section: written without a header, first *)
      apply String.eqb_eq in En. subst name.
      destruct P as [|[p pv] P].
      * destruct (HP eq_refl) as [-> Hne]. simpl in Hne.
        destruct kvs as [|[k v] kvs]; [congruence|].
        simpl in Hkvs. apply andb_true_iff in Hkvs as [Hkv Hkvs].
        apply andb_true_iff in Hkv as [Hk Hv].
        cbn [map app readMore_loop].
        rewrite readMore_body_classify, (classify_keyval_line k v Hk Hv).
        cbv zeta. cbn [rs_sect rs_line rs_data StdMap.upd StdMap.assign].
        destruct (readMore_loop_keyvals ign kvs ("" :: ini_lines M) "" []
                    [(k, v)] (size_incr line) Hkvs Hkok (Forall_nil _))
          as [line' Hl].
        rewrite <- app_assoc. cbn [app] in Hl |- *. rewrite Hl.
        exact (Hblank (mkReadState "" line' [])).
      * exfalso. inversion Hbefore as [|? ? Hlt _]; subst.
        exact (not_lt_empty _ Hlt).
    + (* a named section: its header creates it behind the others *)
      cbn [readMore_loop].
      rewrite readMore_body_classify, (classify_header_line name Hname).
      cbv zeta. cbn [rs_sect rs_line rs_data]. unfold StdMap.subscript.
      rewrite upd_at_end by assumption.
      destruct (readMore_loop_keyvals ign kvs ("" :: ini_lines M) name P
                  [] (size_incr line) Hkvs Hkok Hbefore) as [line' Hl].
      rewrite <- app_assoc. cbn [app] in Hl |- *. rewrite Hl.
      exact (Hblank (mkReadState "" line' [])).
Qed.

Lemma ini_lines_no_LF (M : DataMap) :
  map_all plain M = true ->
  Forall (fun ln => all_chars (is_not LF) ln = true) (ini_lines M).
Proof.
  induction M as [|[name kvs] M IH]; intros H; [constructor|].
  simpl in H. apply andb_true_iff in H as [Hs H].
  apply andb_true_iff in Hs as [Hname Hkvs].
  unfold ini_lines. cbn [flat_map]. apply Forall_app. split; [|auto].
  unfold sect_lines. cbn [fst snd]. apply Forall_app. split.
  - destruct (negb (String.eqb name "")); constructor; [|constructor].
    apply plain_parts in Hname as (_ & _ & _ & Hlf).
    unfold header_line. simpl. rewrite all_chars_app, Hlf. reflexivity.
  - apply Forall_app. split; [|repeat constructor].
    clear -Hkvs. induction kvs as [|[k v] kvs IHk]; [constructor|].
    simpl in Hkvs. apply andb_true_iff in Hkvs as [Hkv Hkvs].
    apply andb_true_iff in Hkv as [Hk Hv].
    apply plain_parts in Hk as (_ & _ & _ & Hk).
    apply plain_parts in Hv as (_ & _ & _ & Hv).
    constructor; [|auto]. unfold keyval_line. cbn [fst snd].
    rewrite !all_chars_app, Hk, Hv. reflexivity.
Qed.

(** C2 as stated fails: a value with a line feed in it is written on two
    lines and read back cut (with an exception for the second line, or
    without it when errors are ignored); a default section without keys is
    written as one empty line and is missing after reading. Both mappings
    satisfy the conditions of the claim. *)
Lemma round_trip_fails_as_stated :
  (map_all stated_plain M_two_line_value = true /\
   fst (read (write "" M_two_line_value) false []) <> M_two_line_value /\
   snd (read (write "" M_two_line_value) false []) <> Returned /\
   fst (read (write "" M_two_line_value) true []) <> M_two_line_value) /\
  (map_all stated_plain M_empty_default = true /\
   read (write "" M_empty_default) false [] = ([], Returned) /\
   fst (read (write "" M_empty_default) false []) <> M_empty_default).
Proof. repeat split; discriminate. Qed.

(** C2, amended: let [M] be a mapping in key order whose section names,
    keys and values hold none of ['#'], ['['], [']'], ['='] and no line
    feed, and have no leading or trailing space or tab, and whose default
    section, if it exists, has at least one key. Then reading what
    [write] emits for [M] returns without error and yields [M], with
    [ignoreErrors] on or off and whatever the mapping held before. *)
Theorem round_trip (M dm : DataMap) (ignoreErrors : bool) :
  DataMap_ok M ->
  map_all plain M = true ->
  StdMap.find "" M <> Some [] ->
  read (write "" M) ignoreErrors dm = (M, Returned).
Proof.
  intros [Hok Hin] Hpl Hdef. unfold read, readMore.
  rewrite write_text. cbn [append].
  rewrite getlines_unlines by now apply ini_lines_no_LF.
  destruct (readMore_loop_sections ignoreErrors M [] "" 0%N Hpl Hok Hin)
    as [st [Hl Hd]]; [auto|].
  rewrite Hl, Hd. reflexivity.
Qed.

Lemma round_trip_witness :
  read (write "" [("", [("", ""); ("k", "v")]); ("s", []);
                  ("t", [("a b", "c d")])]) false [("old", [])] =
    ([("", [("", ""); ("k", "v")]); ("s", []); ("t", [("a b", "c d")])],
     Returned).
Proof.
  apply round_trip.
  - split; repeat constructor.
  - reflexivity.
  - discriminate.
Defined.

(** * Further properties *)

(** ** Reading back what was set *)

Section StdMapOrder.

Context {V : Type}.
Implicit Types (m : StdMap.t V) (k : string) (f g : V -> V) (d v : V).

(** The value a fresh element starts from matters only through [f]. *)
Lemma upd_default k f d d' m :
  f d = f d' -> StdMap.upd k f d m = StdMap.upd k f d' m.
Proof.
  intros H. induction m as [|[k' v'] r IH]; simpl.
  - now rewrite H.
  - destruct (String.compare k k'); rewrite ?H, ?IH; reflexivity.
Qed.

Lemma upd_id_present k d v m :
  StdMap.ok m -> StdMap.find k m = Some v ->
  StdMap.upd k (fun x => x) d m = m.
Proof.
  unfold StdMap.ok.
  induction m as [|[k' v'] r IH]; simpl; [discriminate|].
  intros Hok Hf. inversion Hok as [|? ? Hr Hall]; subst.
  destruct (String.eqb k k') eqn:Ek.
  - apply String.eqb_eq in Ek. subst k'. now rewrite compare_refl.
  - destruct (String.compare k k') eqn:E.
    + apply String.compare_eq_iff in E. apply String.eqb_neq in Ek.
      contradiction.
    + apply find_some_in in Hf.
      rewrite Forall_forall in Hall. specialize (Hall _ Hf).
      apply key_lt_gt in Hall. congruence.
    + rewrite IH by assumption. reflexivity.
Qed.

(** A key below the first key of a map is put in front of it. *)
Lemma upd_front k f d k' v' m :
  StdMap.key_lt k k' ->
  StdMap.upd k f d ((k', v') :: m) = (k, f d) :: (k', v') :: m.
Proof. unfold StdMap.key_lt. intros H. simpl. now rewrite H. Qed.

(** Accesses through two different keys can be made in either order. *)
Lemma upd_comm k1 k2 f g d1 d2 m :
  k1 <> k2 ->
  StdMap.upd k1 f d1 (StdMap.upd k2 g d2 m) =
  StdMap.upd k2 g d2 (StdMap.upd k1 f d1 m).
Proof.
  intros Hne.
  assert (Hcmp : String.compare k1 k2 <> Eq).
  { intros E. apply String.compare_eq_iff in E. contradiction. }
  induction m as [|[x v] r IH].
  - simpl. destruct (String.compare k1 k2) eqn:E12; [contradiction| |].
    + rewrite (key_lt_gt _ _ E12). reflexivity.
    + rewrite (gt_key_lt _ _ E12). reflexivity.
  - destruct (String.compare k2 x) eqn:E2; destruct (String.compare k1 x) eqn:E1.
    + (* k1 = x = k2 *)
      apply String.compare_eq_iff in E1, E2. congruence.
    + (* k1 < x = k2 *)
      apply String.compare_eq_iff in E2. subst x.
      cbn [StdMap.upd]. rewrite compare_refl, E1. cbn [StdMap.upd].
      rewrite E1, (key_lt_gt _ _ E1), compare_refl. reflexivity.
    + (* k2 = x < k1 *)
      apply String.compare_eq_iff in E2. subst x.
      cbn [StdMap.upd]. rewrite compare_refl, E1. cbn [StdMap.upd].
      rewrite E1, compare_refl. reflexivity.
    + (* k2 < x = k1 *)
      apply String.compare_eq_iff in E1. subst x.
      cbn [StdMap.upd]. rewrite compare_refl, E2. cbn [StdMap.upd].
      rewrite E2, (key_lt_gt _ _ E2), compare_refl. reflexivity.
    + (* both below x *)
      cbn [StdMap.upd]. rewrite E1, E2. cbn [StdMap.upd].
      destruct (String.compare k1 k2) eqn:E12; [contradiction| |].
      * rewrite (key_lt_gt _ _ E12). cbn [StdMap.upd]. rewrite E2.
        reflexivity.
      * rewrite (gt_key_lt _ _ E12). cbn [StdMap.upd]. rewrite E1.
        reflexivity.
    + (* k2 < x < k1 *)
      cbn [StdMap.upd]. rewrite E1, E2. cbn [StdMap.upd]. rewrite E2.
      apply gt_key_lt in E1.
      rewrite (key_lt_gt _ _ (key_lt_trans _ _ _ E2 E1)).
      cbn [StdMap.upd]. rewrite (key_lt_gt _ _ E1). reflexivity.
    + (* k1 = x < k2 *)
      apply String.compare_eq_iff in E1. subst x.
      cbn [StdMap.upd]. rewrite compare_refl, E2. cbn [StdMap.upd].
      rewrite E2, compare_refl. reflexivity.
    + (* k1 < x < k2 *)
      cbn [StdMap.upd]. rewrite E1, E2. cbn [StdMap.upd]. rewrite E1.
      apply gt_key_lt in E2.
      rewrite (key_lt_gt _ _ (key_lt_trans _ _ _ E1 E2)).
      cbn [StdMap.upd]. rewrite (key_lt_gt _ _ E2). reflexivity.
    + (* both above x *)
      cbn [StdMap.upd]. rewrite E1, E2. cbn [StdMap.upd].
      rewrite E1, E2, IH. reflexivity.
Qed.

End StdMapOrder.

Lemma find_assign_same (key val : string) (kv : KeyValMap) :
  StdMap.find key (StdMap.assign key val kv) = Some val.
Proof.
  unfold StdMap.assign.
  destruct (find_upd_same key (fun _ => val) val kv)
    as [[_ ->]|[v [-> _]]]; reflexivity.
Qed.

(** X1: a value written with [setStr] is what [getStr] returns next,
    whatever default is passed, and that [getStr] leaves the mapping as
    [setStr] made it. *)
Theorem getStr_after_setStr (sect key val def : string) (dm : DataMap) :
  getStr sect key def (setStr sect key val dm) =
    (setStr sect key val dm, val).
Proof.
  unfold getStr, StdMap.subscript, setStr. cbv zeta.
  rewrite upd_upd.
  rewrite (upd_ext sect _ (StdMap.assign key val)) by reflexivity.
  destruct (find_upd_same sect (StdMap.assign key val) [] dm)
    as [[_ ->]|[v [-> _]]]; now rewrite find_assign_same.
Qed.

Lemma assign_assign (key v1 v2 : string) (kv : KeyValMap) :
  StdMap.assign key v2 (StdMap.assign key v1 kv) = StdMap.assign key v2 kv.
Proof.
  unfold StdMap.assign. rewrite upd_upd. now apply upd_default.
Qed.

(** X2: of two [setStr] calls on the same section and key only the
    second counts: the mapping is the same as if the first had not been
    made. *)
Theorem setStr_overwrite (sect key v1 v2 : string) (dm : DataMap) :
  setStr sect key v2 (setStr sect key v1 dm) = setStr sect key v2 dm.
Proof.
  unfold setStr. rewrite upd_upd.
  apply upd_ext. intros kv. apply assign_assign.
Qed.

(** X3: [setStr] calls on different (section, key) pairs commute: the
    mapping, and so the text [write] emits, does not depend on the order
    in which different values are set. *)
Theorem setStr_comm (s1 k1 v1 s2 k2 v2 : string) (dm : DataMap) :
  (s1, k1) <> (s2, k2) ->
  setStr s1 k1 v1 (setStr s2 k2 v2 dm) =
  setStr s2 k2 v2 (setStr s1 k1 v1 dm).
Proof.
  intros Hne. unfold setStr.
  destruct (String.eqb s1 s2) eqn:Es.
  - apply String.eqb_eq in Es. subst s2.
    assert (Hk : k1 <> k2) by congruence.
    rewrite !upd_upd. apply upd_ext. intros kv.
    unfold StdMap.assign. now apply upd_comm.
  - apply String.eqb_neq in Es. now apply upd_comm.
Qed.

Lemma setStr_comm_witness :
  setStr "b" "k" "1" (setStr "a" "z" "2" [("a", [("y", "0")])]) =
  setStr "a" "z" "2" (setStr "b" "k" "1" [("a", [("y", "0")])]).
Proof. apply setStr_comm. discriminate. Defined.

(** X4: after any call of [getStr] the pair (section, key) is stored and
    holds the string the call returned. *)
Theorem getStr_result_stored (sect key def : string) (dm : DataMap) :
  value_at sect key (fst (getStr sect key def dm)) =
    Some (snd (getStr sect key def dm)).
Proof.
  unfold getStr, StdMap.subscript. cbv zeta.
  set (dm1 := StdMap.upd sect (fun v => v) [] dm).
  destruct (StdMap.find sect dm1) as [kv0|] eqn:Hs.
  - destruct (StdMap.find key kv0) as [v|] eqn:Hk; cbn [fst snd].
    + unfold value_at. now rewrite Hs.
    + unfold value_at.
      destruct (find_upd_same sect (StdMap.insert key def) [] dm1)
        as [[Hn _]|[v [-> [Hv| ->]]]].
      * congruence.
      * assert (v = kv0) by congruence. subst v.
        unfold StdMap.insert. now apply find_upd_absent.
      * unfold StdMap.insert. now apply find_upd_absent.
  - cbn [StdMap.find fst snd]. unfold value_at.
    destruct (find_upd_same sect (StdMap.insert key def) [] dm1)
      as [[_ ->]|[v [-> [Hv| ->]]]]; try congruence;
      unfold StdMap.insert; now apply find_upd_absent.
Qed.

(** X5: on a mapping in key order that holds (section, key), [getStr]
    returns the stored value, ignores the default and changes nothing. *)
Theorem getStr_present (sect key def v : string) (dm : DataMap) :
  StdMap.ok dm ->
  value_at sect key dm = Some v ->
  getStr sect key def dm = (dm, v).
Proof.
  intros Hok. unfold value_at.
  destruct (StdMap.find sect dm) as [kv|] eqn:Hs; [|discriminate].
  intros Hk. unfold getStr, StdMap.subscript. cbv zeta.
  rewrite (upd_id_present sect [] kv dm Hok Hs), Hs, Hk. reflexivity.
Qed.

Lemma getStr_present_witness :
  getStr "s" "k" "other" [("a", []); ("s", [("j", "1"); ("k", "2")])] =
    ([("a", []); ("s", [("j", "1"); ("k", "2")])], "2").
Proof.
  apply getStr_present; [repeat constructor | reflexivity].
Defined.

(** ** Typed accessors *)

Section TypedAccessFacts.

Context {T : Type} (put : T -> string) (extract : string -> T).

(** The typed getter changes the mapping as [getStr] does with the
    rendered default. *)
Lemma get_data (sect key : string) (def : T) (dm : DataMap) :
  fst (get put extract sect key def dm) =
  fst (getStr sect key (put def) dm).
Proof.
  unfold get, getStr. cbv zeta.
  destruct (StdMap.find key _); reflexivity.
Qed.

Lemma get_set_value (sect key : string) (val def : T) (dm : DataMap) :
  get put extract sect key def (set put sect key val dm) =
    (set put sect key val dm, extract (put val)).
Proof.
  unfold get, set, StdMap.subscript, setStr. cbv zeta.
  rewrite upd_upd.
  rewrite (upd_ext sect _ (StdMap.assign key (put val))) by reflexivity.
  destruct (find_upd_same sect (StdMap.assign key (put val)) [] dm)
    as [[_ ->]|[v [-> _]]]; now rewrite find_assign_same.
Qed.

(** X6: [get<T>] after [set<T>] does not return the value that was set
    but what extracting its rendered text gives, and leaves the mapping
    as [set<T>] made it. *)
Theorem get_after_set (sect key : string) (val def : T) (dm : DataMap) :
  get put extract sect key def (set put sect key val dm) =
    (set put sect key val dm, extract (put val)).
Proof. apply get_set_value. Qed.

(** X7: when (section, key) is absent, the first [get<T>] returns the
    default itself and stores its rendered text; every later [get<T>],
    with any default, returns what extracting that text gives and changes
    nothing. *)
Theorem get_default_then_get (sect key : string) (def def' : T)
  (dm : DataMap) :
  exists_ sect key dm = false ->
  snd (get put extract sect key def dm) = def /\
  value_at sect key (fst (get put extract sect key def dm)) =
    Some (put def) /\
  get put extract sect key def' (fst (get put extract sect key def dm)) =
    (fst (get put extract sect key def dm), extract (put def)).
Proof.
  intros Habs.
  assert (Hfirst : get put extract sect key def dm =
            (StdMap.upd sect (StdMap.insert key (put def)) [] dm, def)).
  { unfold get, StdMap.subscript. cbv zeta.
    destruct (getStr_section_ref sect key dm (fun v => v) Habs)
      as [kv [Hs Hkv]].
    rewrite Hs, Hkv, upd_upd. reflexivity. }
  rewrite Hfirst. cbn [fst snd].
  destruct (getStr_section_ref sect key dm (StdMap.insert key (put def)) Habs)
    as [kv [Hs Hkv]].
  assert (Hval : StdMap.find key (StdMap.insert key (put def) kv) =
                 Some (put def)).
  { unfold StdMap.insert. now rewrite find_upd_absent. }
  split; [reflexivity|]. split.
  - unfold value_at. rewrite Hs. exact Hval.
  - unfold get, StdMap.subscript. cbv zeta. rewrite upd_upd.
    rewrite (upd_ext sect _ (StdMap.insert key (put def))) by reflexivity.
    rewrite Hs, Hval. reflexivity.
Qed.

End TypedAccessFacts.

Lemma get_default_then_get_witness :
  exists_ "s" "k" [] = false /\
  get put_string extract_string "s" "k" "a b" [] =
    ([("s", [("k", "a b")])], "a b") /\
  get put_string extract_string "s" "k" "zz" [("s", [("k", "a b")])] =
    ([("s", [("k", "a b")])], "a").
Proof.
  split; [reflexivity|]. split; [reflexivity|].
  exact (proj2 (proj2 (get_default_then_get put_string extract_string
                         "s" "k" "a b" "zz" [] eq_refl))).
Defined.

Lemma skipws_no_space (s : string) :
  all_chars (fun c => negb (isspace c)) s = true -> skipws s = s.
Proof.
  destruct s as [|c r]; [reflexivity|]. simpl all_chars. intros H.
  apply andb_true_iff in H as [Hc _]. apply negb_true_iff in Hc.
  cbn [skipws]. now rewrite Hc.
Qed.

Lemma word_no_space (s : string) :
  all_chars (fun c => negb (isspace c)) s = true -> word s = s.
Proof.
  induction s as [|c r IH]; [reflexivity|]. simpl all_chars. intros H.
  apply andb_true_iff in H as [Hc Hr]. apply negb_true_iff in Hc.
  cbn [word]. rewrite Hc, IH by assumption. reflexivity.
Qed.

Lemma word_app_space (w rest : string) (c : ascii) :
  all_chars (fun c => negb (isspace c)) w = true -> isspace c = true ->
  word (w ++ String c rest) = w.
Proof.
  intros Hw Hc. induction w as [|d r IH]; simpl.
  - cbn [word]. now rewrite Hc.
  - simpl in Hw. apply andb_true_iff in Hw as [Hd Hr].
    apply negb_true_iff in Hd. rewrite Hd, IH by assumption. reflexivity.
Qed.

(** X8: for [T = std::string], [get] after [set] returns the string that
    was set when it holds no white space; when it holds white space after
    a first word, only that word comes back although the whole string is
    stored. *)
Theorem get_after_set_string (sect key def w rest : string) (c : ascii)
  (dm : DataMap) :
  all_chars (fun c => negb (isspace c)) w = true ->
  w <> "" ->
  isspace c = true ->
  snd (get put_string extract_string sect key def
         (set put_string sect key w dm)) = w /\
  snd (get put_string extract_string sect key def
         (set put_string sect key (w ++ String c rest) dm)) = w /\
  value_at sect key (set put_string sect key (w ++ String c rest) dm) =
    Some (w ++ String c rest).
Proof.
  intros Hw Hne Hc. rewrite !get_set_value. cbn [snd].
  unfold put_string, extract_string. split; [|split].
  - now rewrite skipws_no_space, word_no_space.
  - destruct w as [|d r]; [contradiction|].
    simpl in Hw. apply andb_true_iff in Hw as [Hd Hr].
    pose proof Hd as Hd'. apply negb_true_iff in Hd'.
    change ((String d r) ++ String c rest) with (String d (r ++ String c rest)).
    cbn [skipws]. rewrite Hd'.
    change (String d (r ++ String c rest)) with ((String d r) ++ String c rest).
    apply word_app_space; [|assumption].
    simpl. now rewrite Hd, Hr.
  - unfold set. apply value_at_setStr.
Qed.

Lemma get_after_set_string_witness :
  snd (get put_string extract_string "s" "k" ""
         (set put_string "s" "k" "hello world" [])) = "hello" /\
  value_at "s" "k" (set put_string "s" "k" "hello world" []) =
    Some "hello world".
Proof.
  assert (Hne : "hello" <> "") by discriminate.
  exact (proj2 (get_after_set_string "s" "k" "" "hello" "world" " " []
                  eq_refl Hne eq_refl)).
Defined.

(** ** What readMore keeps, and when it throws *)

(** X9: [readMore] only adds and overwrites: a (section, key) that is
    stored in a mapping in key order is still stored when the call ends,
    whether it returns or throws. *)
Theorem readMore_keeps_keys (is_ : InputStream) (ign : bool)
  (sect key : string) (dm : DataMap) :
  DataMap_ok dm ->
  exists_ sect key dm = true ->
  exists_ sect key (fst (readMore is_ ign dm)) = true.
Proof.
  intros Hok H. unfold readMore.
  pose proof (readMore_loop_exists ign (getlines is_) sect key
                (mkReadState "" 0 dm) Hok H) as He.
  destruct (readMore_loop ign (getlines is_) (mkReadState "" 0 dm)).
  exact He.
Qed.

Lemma readMore_keeps_keys_witness :
  exists_ "s" "k" (fst (readMore ("[s]" ++ endl ++ "j = 1" ++ endl ++ "bad")
                          false [("s", [("k", "v")])])) = true.
Proof.
  apply readMore_keeps_keys; [split; repeat constructor | reflexivity].
Defined.

Lemma readMore_ignore_outcome (is_ : InputStream) (dm : DataMap) :
  snd (readMore is_ true dm) = Returned.
Proof.
  unfold readMore.
  pose proof (readMore_loop_ignore_returns (getlines is_)
                (mkReadState "" 0 dm)) as Hr.
  destruct (readMore_loop true (getlines is_) (mkReadState "" 0 dm)).
  exact Hr.
Qed.

(** X10: with [ignoreErrors = true], [readMore] and [read] return
    normally on every stream. *)
Theorem readMore_ignoreErrors_returns (is_ : InputStream) (dm : DataMap) :
  snd (readMore is_ true dm) = Returned /\ snd (read is_ true dm) = Returned.
Proof.
  split; [apply readMore_ignore_outcome|].
  unfold read. apply readMore_ignore_outcome.
Qed.

Lemma readMore_loop_returns_iff (lns : list string) (st : ReadState) :
  snd (readMore_loop false lns st) = Returned <->
  Forall (fun l => classify l <> Malformed) lns.
Proof.
  revert st; induction lns as [|ln lns IH]; intros st.
  - simpl. split; [constructor | reflexivity].
  - cbn [readMore_loop]. rewrite readMore_body_classify. cbv zeta.
    destruct (classify ln) eqn:E; cbn [snd];
      try (rewrite IH; split;
           [ intros H; constructor; [rewrite E; discriminate | exact H]
           | intros H; inversion H; assumption ]).
    split; [discriminate|]. intros H. inversion H; subst. congruence.
Qed.

Lemma Forall_equiv {A : Type} (P Q : A -> Prop) (l : list A) :
  (forall x, P x <-> Q x) -> Forall P l <-> Forall Q l.
Proof.
  intros H. split; apply Forall_impl; intros a; apply H.
Qed.

(** X11: with [ignoreErrors = false], [readMore] returns normally exactly
    when no line of the stream, once stripped, is non-empty, starts with
    another character than ['['] and holds no ['=']. *)
Theorem readMore_returns_iff (is_ : InputStream) (dm : DataMap) :
  snd (readMore is_ false dm) = Returned <->
  Forall (fun l => String.length (strip l) = 0 \/
                   front (strip l) = Some "["%char \/
                   find_first_of (strip l) "=" <> None) (getlines is_).
Proof.
  unfold readMore.
  pose proof (readMore_loop_returns_iff (getlines is_) (mkReadState "" 0 dm))
    as H.
  destruct (readMore_loop false (getlines is_) (mkReadState "" 0 dm))
    as [st out]. cbn [snd] in *. rewrite H.
  apply Forall_equiv. intros l. unfold classify.
  destruct (strip l) as [|c r] eqn:Es; cbn [String.length Nat.eqb negb front].
  - split; [auto | discriminate].
  - destruct (Ascii.eqb c "[") eqn:Ec.
    + apply Ascii.eqb_eq in Ec. subst c. split; [auto | discriminate].
    + destruct (find_first_of (String c r) "=") eqn:Ef.
      * split; [intros _; right; right; discriminate | discriminate].
      * split; [congruence|].
        intros [H0|[H1|H2]]; [discriminate H0| |congruence].
        injection H1 as ->. rewrite Ascii.eqb_refl in Ec. discriminate.
Qed.

Lemma readMore_returns_iff_witness :
  snd (readMore ("[s" ++ endl ++ "a=b=c" ++ endl ++ "   " ++ endl ++ "=")
         false []) = Returned.
Proof.
  apply (proj2 (readMore_returns_iff _ [])).
  apply Forall_cons; [right; left; reflexivity|].
  apply Forall_cons; [right; right; discriminate|].
  apply Forall_cons; [left; reflexivity|].
  apply Forall_cons; [right; right; discriminate|].
  apply Forall_nil.
Defined.

(** ** Blank lines, the last line, and merging *)

Lemma erase_leading_spaces_all_blank (s : string) :
  all_chars blank s = true -> erase_leading_spaces s = "".
Proof.
  induction s as [|c r IH]; [reflexivity|]. simpl. intros H.
  apply andb_true_iff in H as [Hc Hr].
  rewrite erase_leading_spaces_cons, Hc. auto.
Qed.

Lemma classify_blank (ln : string) :
  all_chars blank ln = true -> classify ln = Blank.
Proof.
  intros H. unfold classify, strip.
  rewrite (erase_leading_spaces_all_blank _ H). reflexivity.
Qed.

Lemma readMore_loop_blank (ign : bool) (lns : list string) :
  Forall (fun l => classify l = Blank) lns ->
  forall st, exists line,
    readMore_loop ign lns st =
      (mkReadState (rs_sect st) line (rs_data st), Returned).
Proof.
  induction 1 as [|ln lns Hln _ IH]; intros st.
  - exists (rs_line st). destruct st; reflexivity.
  - cbn [readMore_loop]. rewrite readMore_body_classify, Hln. cbv zeta.
    destruct (IH (mkReadState (rs_sect st) (size_incr (rs_line st))
                    (rs_data st))) as [line Hl].
    exists line. exact Hl.
Qed.

(** X12: a stream whose lines hold nothing but spaces and tabs (or
    nothing at all) changes nothing: [readMore] returns the mapping it was
    given, without error. *)
Theorem readMore_blank_stream (is_ : InputStream) (ign : bool)
  (dm : DataMap) :
  Forall (fun l => all_chars blank l = true) (getlines is_) ->
  readMore is_ ign dm = (dm, Returned).
Proof.
  intros H. unfold readMore.
  destruct (readMore_loop_blank ign (getlines is_)) with
    (st := mkReadState "" 0 dm) as [line ->].
  - eapply Forall_impl; [|exact H]. intros l. apply classify_blank.
  - reflexivity.
Qed.

Lemma readMore_blank_stream_witness :
  readMore (endl ++ "  " ++ String TAB "" ++ endl ++ " ") false
    [("s", [("k", "v")])] = ([("s", [("k", "v")])], Returned).
Proof. apply readMore_blank_stream. repeat constructor. Defined.

Lemma getlines_unlines_app (pre : list string) (rest : string) :
  Forall (fun ln => all_chars (is_not LF) ln = true) pre ->
  getlines (unlines pre ++ rest) = (pre ++ getlines rest)%list.
Proof.
  induction 1 as [|ln pre Hln _ IH]; [reflexivity|].
  rewrite unlines_cons, !append_assoc, getlines_line, IH by assumption.
  reflexivity.
Qed.

Lemma getlines_single (ln : string) :
  all_chars (is_not LF) ln = true -> ln <> "" -> getlines ln = [ln].
Proof.
  induction ln as [|c r IH]; [contradiction|]. simpl all_chars.
  unfold is_not at 1. intros H _. apply andb_true_iff in H as [Hc Hr].
  apply negb_true_iff in Hc. cbn [getlines]. rewrite Hc.
  destruct r as [|d r']; [reflexivity|].
  rewrite IH by (assumption || discriminate). reflexivity.
Qed.

(** X13: a last line without a terminating line feed is read like a
    terminated one: the two streams give the same mapping and the same
    outcome. *)
Theorem readMore_unterminated_last_line (pre : list string) (ln : string)
  (ign : bool) (dm : DataMap) :
  Forall (fun l => all_chars (is_not LF) l = true) pre ->
  all_chars (is_not LF) ln = true ->
  ln <> "" ->
  readMore (unlines pre ++ ln) ign dm =
  readMore (unlines pre ++ ln ++ endl) ign dm.
Proof.
  intros Hpre Hln Hne. unfold readMore.
  rewrite !getlines_unlines_app by assumption.
  rewrite (getlines_single ln Hln Hne).
  rewrite <- (append_nil_r (ln ++ endl)), append_assoc.
  rewrite (getlines_line ln "" Hln). reflexivity.
Qed.

Lemma readMore_unterminated_last_line_witness :
  readMore ("[s]" ++ endl ++ "k = v") false [] =
  readMore ("[s]" ++ endl ++ "k = v" ++ endl) false [].
Proof.
  assert (Hne : "k = v" <> "") by discriminate.
  exact (readMore_unterminated_last_line ["[s]"] "k = v" false []
           ltac:(repeat constructor) eq_refl Hne).
Defined.

(** X14: with [ignoreErrors = true], reading a first source that holds no
    section header and then merging a second one with [readMore] gives the
    same mapping as reading the lines of both as one stream. *)
Theorem readMore_merge (is1 is2 is12 : InputStream) (dm : DataMap) :
  getlines is12 = (getlines is1 ++ getlines is2)%list ->
  Forall (fun l => forall name, classify l <> Header name) (getlines is1) ->
  readMore is12 true dm = readMore is2 true (fst (readMore is1 true dm)).
Proof.
  intros H12 Hh. unfold readMore. rewrite H12, readMore_loop_app.
  destruct (readMore_loop_no_header true (getlines is1) (mkReadState "" 0 dm))
    as [[s1 l1 d1] [Hp Hs]].
  { eapply Forall_impl; [|exact Hh]. intros l Hl. split; auto. }
  rewrite Hp. cbn [fst rs_data rs_sect] in *. subst s1.
  pose proof (readMore_loop_ignore_line (getlines is2) "" l1 0 d1) as Hd.
  pose proof (readMore_loop_ignore_returns (getlines is2)
                (mkReadState "" l1 d1)) as H1.
  pose proof (readMore_loop_ignore_returns (getlines is2)
                (mkReadState "" 0 d1)) as H2.
  destruct (readMore_loop true (getlines is2) (mkReadState "" l1 d1)).
  destruct (readMore_loop true (getlines is2) (mkReadState "" 0 d1)).
  cbn [fst snd] in *. subst. rewrite Hd. reflexivity.
Qed.

Lemma readMore_merge_witness :
  readMore ("a = 1" ++ endl ++ "junk" ++ endl ++ "[s]" ++ endl ++ "b = 2")
    true [] =
  readMore ("[s]" ++ endl ++ "b = 2") true
    (fst (readMore ("a = 1" ++ endl ++ "junk" ++ endl) true [])).
Proof.
  apply readMore_merge; [reflexivity|].
  repeat constructor; discriminate.
Defined.

(** ** Sections created by headers *)

Lemma find_upd_some {V : Type} (s k : string) (f : V -> V) (d : V)
  (m : StdMap.t V) :
  StdMap.find s m <> None -> StdMap.find s (StdMap.upd k f d m) <> None.
Proof.
  intros H. destruct (String.eqb s k) eqn:E.
  - apply String.eqb_eq in E. subst k.
    destruct (find_upd_same s f d m) as [[_ ->]|[v [-> _]]]; discriminate.
  - apply String.eqb_neq in E. now rewrite find_upd_other.
Qed.

Lemma readMore_loop_sections_stay (ign : bool) (lns : list string)
  (s : string) (st : ReadState) :
  StdMap.find s (rs_data st) <> None ->
  StdMap.find s (rs_data (fst (readMore_loop ign lns st))) <> None.
Proof.
  revert st; induction lns as [|ln lns IH]; intros st H; [exact H|].
  cbn [readMore_loop]. rewrite readMore_body_classify. cbv zeta.
  destruct (classify ln); try (apply IH; cbn [rs_data]; try assumption;
                               now apply find_upd_some).
  destruct ign; [now apply IH | exact H].
Qed.

(** X15: a header line that is reached creates its section, even when no
    assignment follows it: the section is in the mapping when [readMore]
    ends, whatever comes after the header. *)
Theorem header_creates_section (is_ : InputStream) (ign : bool)
  (dm : DataMap) (pre post : list string) (ln name : string) :
  getlines is_ = (pre ++ ln :: post)%list ->
  Forall (fun l => classify l = Malformed -> ign = true) pre ->
  classify ln = Header name ->
  StdMap.find name (fst (readMore is_ ign dm)) <> None.
Proof.
  intros Hlns Hpre Hln. unfold readMore. rewrite Hlns, readMore_loop_app.
  assert (Hret : forall st, exists st1,
             readMore_loop ign pre st = (st1, Returned)).
  { clear -Hpre. induction Hpre as [|l pre Hl _ IH]; intros st.
    - exists st. reflexivity.
    - cbn [readMore_loop]. rewrite readMore_body_classify. cbv zeta.
      destruct (classify l); try apply IH.
      rewrite (Hl eq_refl) in *. apply IH. }
  destruct (Hret (mkReadState "" 0 dm)) as [st1 ->].
  cbn [readMore_loop]. rewrite readMore_body_classify, Hln.
  cbv beta iota zeta.
  match goal with
  | |- context [readMore_loop ign post ?s] =>
      pose proof (readMore_loop_sections_stay ign post name s) as Hs;
      destruct (readMore_loop ign post s) as [st2 out2]
  end.
  cbn [fst rs_data] in *. apply Hs. unfold StdMap.subscript.
  destruct (find_upd_same name (fun v => v) [] (rs_data st1))
    as [[_ ->]|[v [-> _]]]; discriminate.
Qed.

Lemma header_creates_section_witness :
  StdMap.find "empty"
    (fst (readMore ("a = 1" ++ endl ++ "[ empty ]" ++ endl ++ "[z]" ++ endl
                    ++ "oops") false [])) <> None.
Proof.
  apply (header_creates_section
           ("a = 1" ++ endl ++ "[ empty ]" ++ endl ++ "[z]" ++ endl ++ "oops")
           false [] ["a = 1"] ["[z]"; "oops"] "[ empty ]" "empty" eq_refl).
  - repeat constructor. discriminate.
  - reflexivity.
Defined.

(** ** The grammar of a line *)

Lemma blank_is_not (ch c : ascii) :
  blank ch = false -> blank c = true -> is_not ch c = true.
Proof.
  intros Hch Hc. unfold is_not.
  destruct (Ascii.eqb c ch) eqn:E; [|reflexivity].
  apply Ascii.eqb_eq in E. congruence.
Qed.

Lemma all_blank_is_not (ch : ascii) (b : string) :
  blank ch = false -> all_chars blank b = true ->
  all_chars (is_not ch) b = true.
Proof.
  intros Hch. apply all_chars_impl. intros c. now apply blank_is_not.
Qed.

Lemma erase_trailing_spaces_nonblank_cons (c : ascii) (r : string) :
  blank c = false ->
  erase_trailing_spaces (String c r) = String c (erase_trailing_spaces r).
Proof.
  intros Hc. rewrite erase_trailing_spaces_cons, Hc.
  destruct (erase_trailing_spaces r); reflexivity.
Qed.

Lemma all_chars_erase_trailing (p : ascii -> bool) (s : string) :
  all_chars p s = true -> all_chars p (erase_trailing_spaces s) = true.
Proof. apply all_chars_erase. Qed.

Lemma find_first_of_app_skip (a t : string) (ch : ascii) :
  all_chars (is_not ch) a = true ->
  find_first_of (a ++ t) ch =
  option_map (Nat.add (String.length a)) (find_first_of t ch).
Proof.
  induction a as [|c r IH]; simpl.
  - intros _. destruct (find_first_of t ch); reflexivity.
  - unfold is_not at 1. intros H. apply andb_true_iff in H as [Hc Hr].
    apply negb_true_iff in Hc. rewrite Hc, IH by assumption.
    destruct (find_first_of t ch); reflexivity.
Qed.

Lemma take_app_skip (a t : string) (n : nat) :
  take (String.length a + n) (a ++ t) = a ++ take n t.
Proof. induction a as [|c r IH]; simpl; [reflexivity | now rewrite IH]. Qed.

(** The kind of a line is decided by the stripped line. *)
Lemma classify_stripped_header (ln body t : string) :
  strip ln = String "[" (body ++ String "]" t) ->
  all_chars (is_not "]") body = true ->
  classify ln =
    Header (erase_trailing_spaces (erase_leading_spaces body)).
Proof.
  intros Hs Hb. unfold classify. rewrite Hs. cbv zeta.
  cbn [String.length Nat.eqb negb front]. rewrite Ascii.eqb_refl.
  unfold header_name.
  change (find_first_of (String "[" (body ++ String "]" t)) "]")
    with (option_map S (find_first_of (body ++ String "]" t) "]")).
  rewrite find_first_of_app by assumption.
  cbn [option_map pos_pred substr drop]. now rewrite take_length_app.
Qed.

Lemma classify_stripped_assignment (ln K W : string) :
  strip ln = K ++ String "=" W ->
  all_chars (is_not "=") K = true ->
  front (K ++ String "=" W) <> Some "["%char ->
  classify ln =
    Assignment (erase_trailing_spaces K) (erase_leading_spaces W).
Proof.
  intros Hs HK Hfront. unfold classify. rewrite Hs. cbv zeta.
  assert (Hlen : negb (Nat.eqb (String.length (K ++ String "=" W)) 0) = true).
  { rewrite length_append. simpl. rewrite Nat.add_succ_r. reflexivity. }
  rewrite Hlen.
  destruct (front (K ++ String "=" W)) as [c|] eqn:Hf.
  - destruct (Ascii.eqb c "[") eqn:Ec.
    + apply Ascii.eqb_eq in Ec. subst c. contradiction.
    + rewrite find_first_of_app by assumption.
      unfold assignment_key, assignment_val, substr.
      cbn [drop]. now rewrite take_length_app, drop_succ_length_app.
  - destruct K; discriminate.
Qed.

(** The part of an assignment line before ['=']: leading blanks [b1],
    the key, blanks [b2]. After the leading blanks are erased it is [K],
    empty for an empty key. *)
Lemma erase_leading_key (b1 k b2 R : string) :
  all_chars blank b1 = true -> all_chars blank b2 = true ->
  nonblank_or_none (front k) = true ->
  exists K,
    erase_leading_spaces (b1 ++ k ++ b2 ++ String "=" R) =
      K ++ String "=" R /\
    erase_trailing_spaces K = erase_trailing_spaces k /\
    (K = "" /\ k = "" \/ K = k ++ b2 /\ k <> "").
Proof.
  intros H1 H2 Hk. rewrite erase_leading_spaces_blank by assumption.
  destruct k as [|c r].
  - exists "". cbn [append].
    rewrite erase_leading_spaces_blank by assumption.
    rewrite erase_leading_spaces_id by reflexivity. auto.
  - exists (String c r ++ b2).
    rewrite erase_leading_spaces_id by exact Hk.
    rewrite append_assoc, erase_trailing_spaces_blank by assumption.
    split; [reflexivity|]. split; [reflexivity|]. right.
    split; [reflexivity | discriminate].
Qed.

Lemma front_key_not_bracket (K k b2 W : string) :
  (K = "" /\ k = "" \/ K = k ++ b2 /\ k <> "") ->
  front k <> Some "["%char ->
  front (K ++ String "=" W) <> Some "["%char.
Proof.
  intros [[-> _]|[-> Hne]] Hf; [discriminate|].
  now rewrite append_assoc, front_app.
Qed.

Lemma key_part_is_not (ch : ascii) (K k b2 : string) :
  blank ch = false ->
  (K = "" /\ k = "" \/ K = k ++ b2 /\ k <> "") ->
  all_chars blank b2 = true ->
  all_chars (is_not ch) k = true ->
  all_chars (is_not ch) K = true.
Proof.
  intros Hch [[-> _]|[-> _]] Hb Hk; [reflexivity|].
  rewrite all_chars_app, Hk. now apply all_blank_is_not.
Qed.

(** X16: an assignment line may carry any number of spaces and tabs
    before the key, around ['='] and after the value, and the value may
    hold ['=']: the line is split at its first ['='] and the key and the
    value are stored without the surrounding blanks. *)
Theorem classify_padded_assignment (b1 k b2 b3 v b4 : string) :
  all_chars blank b1 = true -> all_chars blank b2 = true ->
  all_chars blank b3 = true -> all_chars blank b4 = true ->
  no_edge_blank k = true -> no_edge_blank v = true ->
  all_chars (is_not "#") k = true -> all_chars (is_not "#") v = true ->
  all_chars (is_not "=") k = true ->
  front k <> Some "["%char ->
  classify (b1 ++ k ++ b2 ++ String "=" (b3 ++ v ++ b4)) = Assignment k v.
Proof.
  intros H1 H2 H3 H4 Hk Hv Hkc Hvc Hke Hkf.
  unfold no_edge_blank in Hk, Hv.
  apply andb_true_iff in Hk as [Hkfr Hkb].
  apply andb_true_iff in Hv as [Hvfr Hvb].
  destruct (erase_leading_key b1 k b2 (b3 ++ v ++ b4) H1 H2 Hkfr)
    as (K & HK & HKk & Hshape).
  assert (HW : erase_trailing_spaces (b3 ++ v ++ b4) =
               erase_trailing_spaces (b3 ++ v)).
  { rewrite <- append_assoc. now apply erase_trailing_spaces_blank. }
  assert (Hstrip : strip (b1 ++ k ++ b2 ++ String "=" (b3 ++ v ++ b4)) =
                   K ++ String "=" (erase_trailing_spaces (b3 ++ v))).
  { unfold strip. rewrite HK.
    rewrite erase_trailing_spaces_app
      by (rewrite erase_trailing_spaces_nonblank_cons by reflexivity;
          discriminate).
    rewrite erase_trailing_spaces_nonblank_cons, HW by reflexivity.
    rewrite find_first_of_none; [reflexivity|].
    rewrite all_chars_app.
    rewrite (key_part_is_not "#" K k b2) by auto.
    cbn [andb all_chars is_not Ascii.eqb negb].
    change (is_not "#" "=") with true. cbn [andb].
    apply all_chars_erase_trailing. rewrite all_chars_app, Hvc.
    now rewrite all_blank_is_not. }
  rewrite (classify_stripped_assignment _ _ _ Hstrip).
  - f_equal.
    + rewrite HKk. now apply erase_trailing_spaces_id.
    + destruct v as [|c r].
      * rewrite append_nil_r.
        now rewrite erase_trailing_spaces_all_blank.
      * rewrite erase_trailing_spaces_app
          by (rewrite erase_trailing_spaces_id by exact Hvb; discriminate).
        rewrite erase_trailing_spaces_id by exact Hvb.
        rewrite erase_leading_spaces_blank by assumption.
        now apply erase_leading_spaces_id.
  - now apply (key_part_is_not "=" K k b2).
  - now apply (front_key_not_bracket K k b2).
Qed.

Lemma classify_padded_assignment_witness :
  classify ("  " ++ "my key" ++ String TAB "" ++ String "="
              (" " ++ "a=b c" ++ "   ")) = Assignment "my key" "a=b c".
Proof.
  apply classify_padded_assignment; try reflexivity. discriminate.
Defined.

(** Both sides are brought to right-nested appends. *)
Ltac assoc_norm := repeat (rewrite ?append_assoc; cbn [append]).

(** A line with a ['#'] is cut behind the ['#']: the comment text goes,
    the ['#'] and what stands before it stay. *)
Lemma strip_comment (b1 a c : string) :
  all_chars blank b1 = true ->
  nonblank_or_none (front a) = true ->
  all_chars (is_not "#") a = true ->
  strip (b1 ++ a ++ String "#" c) = a ++ "#".
Proof.
  intros Hb Hf Ha. unfold strip.
  rewrite erase_leading_spaces_blank by assumption.
  rewrite erase_leading_spaces_id
    by (destruct a; [reflexivity | exact Hf]).
  rewrite erase_trailing_spaces_app
    by (rewrite erase_trailing_spaces_nonblank_cons by reflexivity;
        discriminate).
  rewrite erase_trailing_spaces_nonblank_cons by reflexivity.
  rewrite find_first_of_app by assumption.
  unfold erase. rewrite append_nil_r.
  change (String "#" (erase_trailing_spaces c))
    with ("#" ++ erase_trailing_spaces c).
  rewrite <- append_assoc.
  replace (String.length a + 1) with (String.length (a ++ "#"))
    by (rewrite length_append; reflexivity).
  apply take_length_app.
Qed.

(** X17: when a ['#'] follows an assignment, the stored value is what
    stands between ['='] and ['#'] without its leading blanks, with its
    trailing blanks, and with the ['#'] at its end; the text after the
    ['#'] is dropped. *)
Theorem classify_assignment_with_comment (b1 k b2 b3 u c : string) :
  all_chars blank b1 = true -> all_chars blank b2 = true ->
  all_chars blank b3 = true ->
  no_edge_blank k = true ->
  nonblank_or_none (front u) = true ->
  all_chars (is_not "#") k = true -> all_chars (is_not "#") u = true ->
  all_chars (is_not "=") k = true ->
  front k <> Some "["%char ->
  classify (b1 ++ k ++ b2 ++ String "=" (b3 ++ u ++ String "#" c)) =
    Assignment k (u ++ "#").
Proof.
  intros H1 H2 H3 Hk Hu Hkc Huc Hke Hkf.
  unfold no_edge_blank in Hk. apply andb_true_iff in Hk as [Hkfr Hkb].
  assert (Hshape : exists K,
            strip (b1 ++ k ++ b2 ++ String "=" (b3 ++ u ++ String "#" c)) =
              K ++ String "=" (b3 ++ u ++ "#") /\
            erase_trailing_spaces K = k /\
            (K = "" /\ k = "" \/ K = k ++ b2 /\ k <> "")).
  { destruct k as [|d r].
    - exists "". split; [|auto]. cbn [append].
      replace (b1 ++ b2 ++ String "=" (b3 ++ u ++ String "#" c))
        with ((b1 ++ b2) ++ (String "=" (b3 ++ u)) ++ String "#" c)
        by (assoc_norm; reflexivity).
      rewrite strip_comment.
      + assoc_norm. reflexivity.
      + rewrite all_chars_app, H1, H2. reflexivity.
      + reflexivity.
      + cbn [all_chars]. change (is_not "#" "=") with true. cbn [andb].
        rewrite all_chars_app, Huc. now rewrite all_blank_is_not.
    - exists (String d r ++ b2). split; [|split].
      + replace (b1 ++ String d r ++ b2 ++
                 String "=" (b3 ++ u ++ String "#" c))
          with (b1 ++ (String d r ++ b2 ++ String "=" (b3 ++ u)) ++
                String "#" c)
          by (assoc_norm; reflexivity).
        rewrite strip_comment.
        * assoc_norm. reflexivity.
        * assumption.
        * exact Hkfr.
        * rewrite all_chars_app, Hkc, all_chars_app.
          rewrite (all_blank_is_not "#" b2) by auto.
          cbn [all_chars andb]. change (is_not "#" "=") with true.
          cbn [andb]. rewrite all_chars_app, Huc.
          now rewrite all_blank_is_not.
      + rewrite erase_trailing_spaces_blank by assumption.
        now apply erase_trailing_spaces_id.
      + right. split; [reflexivity | discriminate]. }
  destruct Hshape as (K & Hstrip & HKk & HK).
  rewrite (classify_stripped_assignment _ _ _ Hstrip).
  - f_equal; [exact HKk|].
    rewrite erase_leading_spaces_blank by assumption.
    apply erase_leading_spaces_id.
    destruct u; [reflexivity | exact Hu].
  - now apply (key_part_is_not "=" K k b2).
  - now apply (front_key_not_bracket K k b2).
Qed.

Lemma classify_assignment_with_comment_witness :
  classify (" " ++ "k" ++ " " ++ String "="
              (" " ++ "some value  " ++ String "#" " a comment")) =
    Assignment "k" ("some value  " ++ "#").
Proof.
  apply classify_assignment_with_comment; try reflexivity. discriminate.
Defined.

(** The stripped form of a line that starts with a bracketed name:
    the name as written, the closing bracket, and some rest. *)
Lemma strip_header_shape (b1 body tail : string) :
  all_chars blank b1 = true ->
  all_chars (is_not "#") body = true ->
  exists t,
    strip (b1 ++ String "[" (body ++ String "]" tail)) =
      String "[" (body ++ String "]" t).
Proof.
  intros Hb Hc. unfold strip.
  rewrite erase_leading_spaces_blank by assumption.
  rewrite erase_leading_spaces_id by reflexivity.
  rewrite erase_trailing_spaces_nonblank_cons by reflexivity.
  rewrite erase_trailing_spaces_app
    by (rewrite erase_trailing_spaces_nonblank_cons by reflexivity;
        discriminate).
  rewrite erase_trailing_spaces_nonblank_cons by reflexivity.
  set (t := erase_trailing_spaces tail).
  replace (String "[" (body ++ String "]" t))
    with ((String "[" body ++ "]") ++ t)
    by (assoc_norm; reflexivity).
  rewrite find_first_of_app_skip.
  - destruct (find_first_of t "#") as [q|]; cbn [option_map].
    + exists (take (q + 1) t). unfold erase.
      rewrite append_nil_r, <- Nat.add_assoc, take_app_skip.
      assoc_norm. reflexivity.
    + exists t. assoc_norm. reflexivity.
  - cbn [append all_chars]. change (is_not "#" "[") with true.
    cbn [andb]. rewrite all_chars_app, Hc. reflexivity.
Qed.

(** X18: on a line that starts (after blanks) with ['['], the section
    name is the text up to the first [']'], without the blanks around it;
    whatever follows that [']'] on the line is ignored. *)
Theorem classify_header (b1 body tail : string) :
  all_chars blank b1 = true ->
  all_chars (is_not "]") body = true ->
  all_chars (is_not "#") body = true ->
  classify (b1 ++ String "[" (body ++ String "]" tail)) =
    Header (erase_trailing_spaces (erase_leading_spaces body)).
Proof.
  intros Hb Hbr Hc.
  destruct (strip_header_shape b1 body tail Hb Hc) as [t Hs].
  exact (classify_stripped_header _ _ _ Hs Hbr).
Qed.

Lemma classify_header_witness :
  classify ("  " ++ String "[" ("  my section " ++ String "]" "x = 1 # c")) =
    Header "my section".
Proof.
  exact (classify_header "  " "  my section " "x = 1 # c"
           eq_refl eq_refl eq_refl).
Defined.

(** X19: a header line without a closing [']'] takes the whole rest of
    the line as the section name, without the blanks around it. *)
Theorem classify_header_unclosed (b1 body b4 : string) :
  all_chars blank b1 = true -> all_chars blank b4 = true ->
  nonblank_or_none (back body) = true ->
  all_chars (is_not "]") body = true ->
  all_chars (is_not "#") body = true ->
  classify (b1 ++ String "[" (body ++ b4)) =
    Header (erase_trailing_spaces (erase_leading_spaces body)).
Proof.
  intros H1 H4 Hback Hbr Hc.
  assert (Hs : strip (b1 ++ String "[" (body ++ b4)) = String "[" body).
  { unfold strip.
    rewrite erase_leading_spaces_blank by assumption.
    rewrite erase_leading_spaces_id by reflexivity.
    change (String "[" (body ++ b4)) with (String "[" body ++ b4).
    rewrite erase_trailing_spaces_blank by assumption.
    rewrite erase_trailing_spaces_nonblank_cons by reflexivity.
    rewrite erase_trailing_spaces_id by assumption.
    rewrite find_first_of_none; [reflexivity|].
    cbn [all_chars]. change (is_not "#" "[") with true. exact Hc. }
  unfold classify. rewrite Hs. cbv zeta.
  cbn [String.length Nat.eqb negb front]. rewrite Ascii.eqb_refl.
  unfold header_name.
  change (find_first_of (String "[" body) "]")
    with (option_map S (find_first_of body "]")).
  rewrite find_first_of_none by assumption. reflexivity.
Qed.

Lemma classify_header_unclosed_witness :
  classify (" " ++ String "[" (" name = 1" ++ "  ")) = Header "name = 1".
Proof.
  exact (classify_header_unclosed " " " name = 1" "  "
           eq_refl eq_refl eq_refl eq_refl eq_refl).
Defined.

(** ** Looking up after setStr *)

(** X20: on a mapping in key order, [setStr] changes the value at its own
    (section, key) and at no other: a lookup afterwards gives the new value
    there and the old content everywhere else. *)
Theorem value_at_setStr_cases (sect key s k val : string) (dm : DataMap) :
  DataMap_ok dm ->
  value_at sect key (setStr s k val dm) =
    if String.eqb s sect && String.eqb k key then Some val
    else value_at sect key dm.
Proof.
  intros Hok.
  destruct (String.eqb s sect) eqn:Es; cbn [andb].
  - destruct (String.eqb k key) eqn:Ek.
    + apply String.eqb_eq in Es, Ek. subst. apply value_at_setStr.
    + apply String.eqb_neq in Ek.
      apply value_at_setStr_other; [assumption | congruence].
  - apply String.eqb_neq in Es.
    apply value_at_setStr_other; [assumption | congruence].
Qed.

Lemma value_at_setStr_cases_witness :
  value_at "s" "j" (setStr "s" "k" "new" [("s", [("j", "1"); ("k", "2")])]) =
    Some "1".
Proof.
  exact (value_at_setStr_cases "s" "j" "s" "k" "new"
           [("s", [("j", "1"); ("k", "2")])]
           ltac:(split; repeat constructor)).
Defined.

(** ** Files *)

Lemma read_written (M dm : DataMap) (ign : bool) :
  DataMap_ok M -> map_all plain M = true -> StdMap.find "" M <> Some [] ->
  read (write "" M) ign dm = (M, Returned).
Proof.
  intros [Hok Hin] Hpl Hdef. unfold read, readMore.
  rewrite write_text. cbn [append].
  rewrite getlines_unlines by now apply ini_lines_no_LF.
  destruct (readMore_loop_sections ign M [] "" 0%N Hpl Hok Hin)
    as [st [Hl Hd]]; [auto|].
  rewrite Hl, Hd. reflexivity.
Qed.

(** X22: [open] links the file and sets the auto-sync flag in every case,
    also when reading the file throws; it returns normally when the file
    cannot be opened, leaving the mapping as it is, and whenever
    [ignoreErrors] is set. *)
Theorem open_links (filename : string) (autosync ign : bool)
  (fs : FileSystem) (m : MiIni) :
  mFilename (fst (open filename autosync ign fs m)) = filename /\
  mAutoSync (fst (open filename autosync ign fs m)) = autosync /\
  (fs_content fs filename = None ->
   open filename autosync ign fs m =
     (mkMiIni filename autosync (dataMap m), Returned)) /\
  (ign = true -> snd (open filename autosync ign fs m) = Returned).
Proof.
  unfold open. destruct (fs_content fs filename) as [text|] eqn:E.
  - pose proof (readMore_ignore_outcome text []) as Hr.
    fold (read text true (dataMap m)) in Hr.
    destruct (read text ign (dataMap m)) as [dm out] eqn:Er.
    cbn [fst snd mFilename mAutoSync].
    repeat split; try discriminate.
    intros ->. rewrite Er in Hr. exact Hr.
  - cbn [fst snd mFilename mAutoSync]. repeat split.
Qed.

Lemma open_links_witness :
  open "in.ini" true false
    (mkFS (fun _ => Some ("a = 1" ++ endl ++ "bad")) (fun _ => false))
    MiIni_new =
    (mkMiIni "in.ini" true [("", [("a", "1")])],
     Threw (FormatException "Wrong ini file format at line 2!" 2)) /\
  snd (open "in.ini" true true
         (mkFS (fun _ => Some ("a = 1" ++ endl ++ "bad")) (fun _ => false))
         MiIni_new) = Returned.
Proof.
  split; [reflexivity|].
  exact (proj2 (proj2 (proj2 (open_links "in.ini" true true
           (mkFS (fun _ => Some ("a = 1" ++ endl ++ "bad")) (fun _ => false))
           MiIni_new))) eq_refl).
Defined.

Lemma sync_open_round_trip (fs : FileSystem) (m m' : MiIni)
  (autosync ign : bool) :
  fs_writable fs (mFilename m) = true ->
  DataMap_ok (dataMap m) ->
  map_all plain (dataMap m) = true ->
  StdMap.find "" (dataMap m) <> Some [] ->
  snd (sync fs m) = Returned /\
  open (mFilename m) autosync ign (fst (sync fs m)) m' =
    (mkMiIni (mFilename m) autosync (dataMap m), Returned).
Proof.
  intros Hw Hok Hpl Hdef. unfold sync. rewrite Hw. cbn [fst snd].
  split; [reflexivity|].
  unfold open, fs_store. cbn [fs_content]. rewrite String.eqb_refl.
  rewrite read_written by assumption. reflexivity.
Qed.

(** X23: what [sync] wrote is what [open] reads: after a [sync] that
    could open the file, opening the same path gives back the mapping,
    provided its names, keys and values are plain and its default section,
    if there is one, is not empty. *)
Theorem sync_then_open (fs : FileSystem) (m m' : MiIni)
  (autosync ign : bool) :
  fs_writable fs (mFilename m) = true ->
  DataMap_ok (dataMap m) ->
  map_all plain (dataMap m) = true ->
  StdMap.find "" (dataMap m) <> Some [] ->
  snd (sync fs m) = Returned /\
  open (mFilename m) autosync ign (fst (sync fs m)) m' =
    (mkMiIni (mFilename m) autosync (dataMap m), Returned).
Proof. apply sync_open_round_trip. Qed.

Lemma sync_then_open_witness :
  open "out.ini" false false (fst (sync fs_any m_linked)) MiIni_new =
    (mkMiIni "out.ini" false [("", [("k", "v")])], Returned).
Proof.
  exact (proj2 (sync_then_open fs_any m_linked MiIni_new false false
                  eq_refl ltac:(split; repeat constructor) eq_refl
                  ltac:(discriminate))).
Defined.

(** X24: a MiIni that is linked to a writable path with auto-sync on is
    saved by its destructor: the destructor ends normally, and an object
    constructed afterwards on the same path starts with the same mapping,
    provided its names, keys and values are plain and its default section,
    if there is one, is not empty. *)
Theorem destroyed_then_constructed (fs : FileSystem) (m : MiIni)
  (autosync : bool) :
  mFilename m <> "" ->
  mAutoSync m = true ->
  fs_writable fs (mFilename m) = true ->
  DataMap_ok (dataMap m) ->
  map_all plain (dataMap m) = true ->
  StdMap.find "" (dataMap m) <> Some [] ->
  snd (MiIni_dtor fs m) = Destroyed /\
  snd (fst (MiIni_dtor fs m)) = MiIni_new /\
  MiIni_ctor (mFilename m) autosync (fst (fst (MiIni_dtor fs m))) =
    (mkMiIni (mFilename m) autosync (dataMap m), Returned).
Proof.
  intros Hf Ha Hw Hok Hpl Hdef.
  destruct (sync_open_round_trip fs m MiIni_new autosync false Hw Hok Hpl
              Hdef)
    as [Hs Ho].
  unfold MiIni_dtor, MiIni_ctor, close.
  assert (Hlen : negb (Nat.eqb (String.length (mFilename m)) 0) = true).
  { destruct (mFilename m); [contradiction | reflexivity]. }
  rewrite Hlen, Ha. cbn [andb].
  destruct (sync fs m) as [fs' out]. cbn [fst snd] in *. subst out.
  cbn [fst snd]. auto.
Qed.

Lemma destroyed_then_constructed_witness :
  MiIni_ctor "out.ini" true (fst (fst (MiIni_dtor fs_any m_linked))) =
    (m_linked, Returned).
Proof.
  assert (Hne : mFilename m_linked <> "") by discriminate.
  exact (proj2 (proj2 (destroyed_then_constructed fs_any m_linked true
                  Hne eq_refl eq_refl ltac:(split; repeat constructor)
                  eq_refl ltac:(discriminate)))).
Defined.

(** X25: once [close] has returned, closing again (as the destructor
    does) returns normally and changes neither the object nor any file. *)
Theorem close_twice (fs fs' : FileSystem) (m m' : MiIni) :
  close fs m = (fs', m', Returned) ->
  close fs' m' = (fs', m', Returned).
Proof.
  unfold close.
  destruct (negb (Nat.eqb (String.length (mFilename m)) 0) && mAutoSync m).
  - destruct (sync fs m) as [fs1 [|e]]; intros [= <- <-]; reflexivity.
  - intros [= <- <-]. reflexivity.
Qed.

Lemma close_twice_witness :
  close (fst (fst (close fs_any m_linked)))
        (snd (fst (close fs_any m_linked))) =
    (fst (fst (close fs_any m_linked)), MiIni_new, Returned).
Proof.
  exact (close_twice fs_any _ m_linked _ eq_refl).
Defined.
